(** * keybaseca: the SSH CA orchestrator of bot-sshca

    A shallow embedding of [src/cmd/keybaseca/keybaseca.go] and the
    properties of its client-config distribution, its offline signing
    path, its key backup and its bounded maintenance scan.

    Everything the orchestrator calls outside its own file (the KBFS
    store, the chat bot, the signer, the local file system, the
    terminal) is an external call: each call is recorded in a trace
    together with its outcome, and whether it fails is decided by a
    fault oracle that sees the whole world.  The theorems quantify over
    every oracle. *)

From Stdlib Require Import Ascii String List Arith Lia.
From stdpp Require Import base option list strings gmap.

Open Scope string_scope.
Open Scope list_scope.

(** ** Strings *)

(** The line feed and the double quote, which string literals cannot
    hold directly. *)
Definition nl : string := String (ascii_of_nat 10) EmptyString.
Definition dquote : string := String (ascii_of_nat 34) EmptyString.

(** Go's [strings.Join(elems, sep)]. *)
Definition strings_Join (elems : list string) (sep : string) : string :=
  String.concat sep elems.

(** Go's [strings.HasPrefix(s, prefix)]. *)
Definition strings_HasPrefix (s pre : string) : bool := String.prefix pre s.

(** Go's [strings.ToLower] on the bytes of ASCII: the letters [A] to [Z]
    become [a] to [z], every other byte is kept.  (On text outside ASCII
    Go lowers further letters; none of them becomes a letter of the
    word [true], the only word [keybaseca.go] compares a lowered string
    with.) *)
Definition lower_ascii (c : ascii) : ascii :=
  let n := nat_of_ascii c in
  if Nat.leb 65 n && Nat.leb n 90 then ascii_of_nat (n + 32) else c.

Fixpoint strings_ToLower (s : string) : string :=
  match s with
  | EmptyString => EmptyString
  | String c s' => String (lower_ascii c) (strings_ToLower s')
  end.

(** ** path/filepath (Unix) *)

Module filepath.

Definition Separator : ascii := "/"%char.

(** The elements of a path: the maximal runs between separators. *)
Fixpoint elements_from (cur p : string) : list string :=
  match p with
  | EmptyString => [cur]
  | String c p' =>
      if Ascii.eqb c Separator
      then cur :: elements_from EmptyString p'
      else elements_from (cur +:+ String c EmptyString) p'
  end.

Definition elements (p : string) : list string := elements_from EmptyString p.

(** One element of [Clean]'s scan.  The state is the number of leading
    [..] elements that cannot be removed and the real elements kept so
    far.  The four cases are the four cases of the [switch] in Go's
    [Clean]: empty element, [.], [..] and a real element. *)
Definition clean_step (rooted : bool) (st : nat * list string) (el : string)
  : nat * list string :=
  let '(dd, kept) := st in
  if decide (el = EmptyString) then st
  else if decide (el = ".") then st
  else if decide (el = "..") then
    match kept with
    | [] => if rooted then st else (S dd, [])
    | _ => (dd, removelast kept)
    end
  else (dd, kept ++ [el]).

(** Go's [filepath.Clean]. *)
Definition Clean (path : string) : string :=
  match path with
  | EmptyString => "."
  | String c _ =>
      let rooted := Ascii.eqb c Separator in
      let '(dd, kept) := fold_left (clean_step rooted) (elements path) (0, []) in
      let body := strings_Join (repeat ".." dd ++ kept) "/" in
      if rooted then "/" +:+ body
      else if decide (body = EmptyString) then "." else body
  end.

(** Go's [filepath.Join]: leading empty elements are dropped, the rest
    is joined with the separator and cleaned. *)
Fixpoint Join (elem : list string) : string :=
  match elem with
  | [] => EmptyString
  | e :: rest =>
      if decide (e = EmptyString) then Join rest
      else Clean (strings_Join (e :: rest) "/")
  end.

(** A path element that [Clean] keeps as it is: it is not empty, not
    [.], not [..], and holds no separator. *)
Definition plain_element (el : string) : bool :=
  bool_decide (el <> EmptyString) && bool_decide (el <> ".") && bool_decide (el <> "..")
  && forallb (fun c => negb (Ascii.eqb c Separator)) (list_ascii_of_string el).

(** No separator occurs in [s]. *)
Definition no_separator (s : string) : Prop :=
  forallb (fun c => negb (Ascii.eqb c Separator)) (list_ascii_of_string s) = true.

End filepath.

(** ** Data model *)

(** Go's [error]; [None] of [option error] is [nil]. *)
Definition error : Type := string.

(** A Go result pair [(T, error)]. *)
Inductive result (A : Type) : Type :=
| Ok (a : A)
| Err (e : error).
Arguments Ok {A} a.
Arguments Err {A} e.

(** What the orchestrator reads through the [config.Config] interface. *)
Record Config : Type := mkConfig {
  GetCAKeyLocation : string;
  GetTeams : list string;
  GetChatTeam : string;
  GetChannelName : string;
  GetKeyExpiration : string;
  GetLogLocation : string;
}.

(** [kssh.ConfigFile], the Client Config Entry. *)
Record ConfigFile : Type := mkConfigFile {
  TeamName : string;
  BotName : string;
  ChannelName : string;
}.

(** The flags of a [cli.Context] that the actions read. *)
Record Context : Type := mkContext {
  flag_public_key : string;
  flag_overwrite : bool;
  flag_wipe_all_configs : bool;
  flag_wipe_logs : bool;
}.

(** The external calls. *)
Inductive Op : Type :=
| OpValidateConfig (conf : Config) (offline : bool)
| OpGetUsername (conf : Config)
| OpStartBot (conf : Config)
| OpSignalNotify (conf : Config)
| OpLog (conf : Config) (msg : string)
| OpKBFSList (prefix : string)
| OpKBFSFileExists (filename : string)
| OpKBFSDelete (filename : string)
| OpKBFSWrite (filename contents : string) (appendToFile : bool)
| OpScanln
| OpReadFile (filename : string)
| OpWriteFile (filename data : string)
| OpStat (name : string)
| OpRemove (name : string)
| OpNewRandom
| OpSignKey (caKeyLocation keyID principals expiration publicKey : string).

#[global] Instance Config_eq_dec : EqDecision Config.
Proof. solve_decision. Defined.
#[global] Instance ConfigFile_eq_dec : EqDecision ConfigFile.
Proof. solve_decision. Defined.
#[global] Instance Op_eq_dec : EqDecision Op.
Proof. solve_decision. Defined.

(** An external call and its outcome. *)
Definition Event : Type := Op * option error.

(** The world the process runs in. *)
Record World : Type := mkWorld {
  environ : Config;               (* what [config.EnvConfig] reads *)
  kbfs : gmap string string;      (* the Team Directory Store: path to contents *)
  kbfs_teams : list string;       (* the team folders the account can list *)
  disk : gmap string string;      (* the local file system *)
  stdout : list string;           (* what was printed, oldest first *)
  trace : list Event;             (* every external call, oldest first *)
}.

Definition set_kbfs (f : gmap string string -> gmap string string) (w : World) : World :=
  mkWorld (environ w) (f (kbfs w)) (kbfs_teams w) (disk w) (stdout w) (trace w).
Definition set_disk (f : gmap string string -> gmap string string) (w : World) : World :=
  mkWorld (environ w) (kbfs w) (kbfs_teams w) (f (disk w)) (stdout w) (trace w).
Definition print (s : string) (w : World) : World :=
  mkWorld (environ w) (kbfs w) (kbfs_teams w) (disk w) (stdout w ++ [s]) (trace w).
Definition print_all (lines : list string) (w : World) : World :=
  mkWorld (environ w) (kbfs w) (kbfs_teams w) (disk w) (stdout w ++ lines) (trace w).
Definition record (op : Op) (r : option error) (w : World) : World :=
  mkWorld (environ w) (kbfs w) (kbfs_teams w) (disk w) (stdout w) (trace w ++ [(op, r)]).

(** The events a run from [w] to [w'] added. *)
Definition events_since (w w' : World) : list Event :=
  drop (length (trace w)) (trace w').

(** The operations of an event list. *)
Definition ops_of (evs : list Event) : list Op := map fst evs.

(** The paths [KBFSDelete], [KBFSWrite] and [ReadFile] were called on in
    an event list, whatever the outcome of the call. *)
Definition deleted_paths (evs : list Event) : list string :=
  omap (fun ev => match fst ev with OpKBFSDelete p => Some p | _ => None end) evs.

Definition written_paths (evs : list Event) : list string :=
  omap (fun ev => match fst ev with OpKBFSWrite p _ _ => Some p | _ => None end) evs.

Definition read_paths (evs : list Event) : list string :=
  omap (fun ev => match fst ev with OpReadFile p => Some p | _ => None end) evs.

(** The paths [KBFSFileExists] was called on, likewise. *)
Definition checked_paths (evs : list Event) : list string :=
  omap (fun ev => match fst ev with OpKBFSFileExists p => Some p | _ => None end) evs.

(** Code of the repository that is not in [keybaseca.go], and the
    environment's answers.  [fault w op] is the error the call [op]
    fails with in world [w], if it fails. *)
Class Externals : Type := {
  ConfigFilename : string;                  (* shared.ConfigFilename *)
  BoundedParallelismLimit : nat;            (* shared.BoundedParallelismLimit *)
  KeyPathToCert : string -> string;         (* shared.KeyPathToCert *)
  PubKeyPathToKeyPath : string -> string;   (* shared.PubKeyPathToKeyPath *)
  json_Marshal : ConfigFile -> result string;
  fault : World -> Op -> option error;
  bot_username : World -> string;           (* the account bot.GetUsername resolves *)
  stdin_token : World -> string;            (* the token fmt.Scanln stores *)
  uuid_String : World -> string;            (* the UUID uuid.NewRandom draws *)
  ssh_signature : World -> Op -> string;    (* the certificate sshutils.SignKey makes *)
  bytes_written : World -> Op -> option nat; (* how far a WriteFile that fails got *)
  log_line : World -> Op -> option string;  (* the line klog.Log adds to the CA log *)
  log_print : World -> Op -> list string;   (* what klog.Log prints on the terminal *)
}.

(** ** The orchestrator *)

Section Orchestrator.
Context `{E : Externals}.

(** A Go function with side effects: a function of the world. *)
Definition M (A : Type) : Type := World -> A * World.

(** *** External collaborators

    The packages [config], [bot], [klog], [sshutils] and [constants] are
    not in [keybaseca.go].  A call to them asks the oracle, applies its
    effect when it succeeds, and records the event.  A failed call leaves
    the stores as they are. *)

(** [config.ValidateConfig(conf, offline)]. *)
Definition config_ValidateConfig (conf : Config) (offline : bool) : M (option error) :=
  fun w =>
    let op := OpValidateConfig conf offline in
    (fault w op, record op (fault w op) w).

(** [bot.GetUsername(conf)]. *)
Definition bot_GetUsername (conf : Config) : M (result string) :=
  fun w =>
    let op := OpGetUsername conf in
    match fault w op with
    | Some e => (Err e, record op (Some e) w)
    | None => (Ok (bot_username w), record op None w)
    end.

(** [bot.StartBot(conf)]: runs until the chat bot stops. *)
Definition bot_StartBot (conf : Config) : M (option error) :=
  fun w =>
    let op := OpStartBot conf in
    (fault w op, record op (fault w op) w).

(** Modelled from the spec: [klog.Log(conf, msg)] adds a line to the CA
    log, the file at [conf.GetLogLocation()], which is in the Team
    Directory Store when its path starts with [/keybase/] and on the
    local disk otherwise (the two places the [wipe-logs] case of
    [mainAction] deletes it from).  Its code is not in [keybaseca.go]:
    the line it adds (none, when it does not write to the file) and
    what it prints on the terminal are the oracle's.  [Log] returns
    nothing. *)
Definition klog_Log (conf : Config) (msg : string) : M unit :=
  fun w =>
    let op := OpLog conf msg in
    let logLocation := GetLogLocation conf in
    let in_kbfs := strings_HasPrefix logLocation "/keybase/" in
    let add (files : gmap string string) : gmap string string :=
      match log_line w op with
      | Some line => <[logLocation := default EmptyString (files !! logLocation) +:+ line]> files
      | None => files
      end in
    (tt, record op None
           (print_all (log_print w op)
              (set_kbfs (fun files => if in_kbfs then add files else files)
                 (set_disk (fun files => if in_kbfs then files else add files) w)))).

(** [logrus.Debugf]: debug logging, no effect on the modelled world. *)
Definition logrus_Debugf (format : string) (teams : list string) : M unit :=
  fun w => (tt, w).

(** Modelled from the spec: [Write(path, content)] of the Team Directory
    Store behind [constants.GetDefaultKBFSOperationsStruct()], whose code
    is not in [keybaseca.go].  The store maps a path to the contents of
    the file there; a write that succeeds overwrites the file (or extends
    it, when asked to append). *)
Definition KBFSWrite (filename contents : string) (appendToFile : bool) : M (option error) :=
  fun w =>
    let op := OpKBFSWrite filename contents appendToFile in
    match fault w op with
    | Some e => (Some e, record op (Some e) w)
    | None =>
        let old := if appendToFile then default EmptyString (kbfs w !! filename)
                   else EmptyString in
        (None, record op None (set_kbfs (insert filename (old +:+ contents)) w))
    end.

(** Modelled from the spec: [Delete(path)] of the Team Directory Store;
    a deletion that succeeds removes the file. *)
Definition KBFSDelete (filename : string) : M (option error) :=
  fun w =>
    let op := OpKBFSDelete filename in
    match fault w op with
    | Some e => (Some e, record op (Some e) w)
    | None => (None, record op None (set_kbfs (delete filename) w))
    end.

(** Modelled from the spec: [Exists(path)] of the Team Directory Store;
    the answer is [false] when the call itself fails. *)
Definition KBFSFileExists (filename : string) : M (bool * option error) :=
  fun w =>
    let op := OpKBFSFileExists filename in
    match fault w op with
    | Some e => ((false, Some e), record op (Some e) w)
    | None => ((bool_decide (is_Some (kbfs w !! filename)), None), record op None w)
    end.

(** Modelled from the spec: [List(prefix)] of the Team Directory Store,
    which [keybaseca.go] calls on the team root only: the names of the
    team folders the account can see. *)
Definition KBFSList (prefix : string) : M (result (list string)) :=
  fun w =>
    let op := OpKBFSList prefix in
    match fault w op with
    | Some e => (Err e, record op (Some e) w)
    | None => (Ok (kbfs_teams w), record op None w)
    end.

(** *** Client Config Distributor *)

(** The [filename] of lines 280 and 316. *)
Definition team_config_filename (team : string) : string :=
  filepath.Join ["/keybase/team/"; team; ConfigFilename].

(** Lines 274-278: the teams [writeClientConfig] ranges over. *)
Definition writeClientConfig_teams (conf : Config) : list string :=
  let teams := GetTeams conf in
  if decide (GetChatTeam conf <> EmptyString)
  then teams ++ [GetChatTeam conf]
  else teams.


(** Lines 282-290: the record marshalled for [team]. *)
Definition writeClientConfig_entry (conf : Config) (username team : string) : ConfigFile :=
  if decide (GetChatTeam conf = EmptyString)
  then {| TeamName := team; BotName := username; ChannelName := EmptyString |}
  else {| TeamName := GetChatTeam conf; BotName := username;
          ChannelName := GetChannelName conf |}.

(** Lines 279-299: the loop of [writeClientConfig]. *)
Fixpoint writeClientConfig_loop (conf : Config) (username : string)
    (teams : list string) : M (option error) :=
  fun w =>
    match teams with
    | [] => (None, w)
    | team :: rest =>
        let filename := team_config_filename team in
        match json_Marshal (writeClientConfig_entry conf username team) with
        | Err e => (Some e, w)
        | Ok content =>
            match KBFSWrite filename content false w with
            | (Some e, w1) => (Some e, w1)
            | (None, w1) => writeClientConfig_loop conf username rest w1
            end
        end
    end.

(** [writeClientConfig]: Publish. *)
Definition writeClientConfig (conf : Config) : M (option error) :=
  fun w =>
    match bot_GetUsername conf w with
    | (Err e, w1) => (Some e, w1)
    | (Ok username, w1) =>
        let teams := writeClientConfig_teams conf in
        match writeClientConfig_loop conf username teams w1 with
        | (Some e, w2) => (Some e, w2)
        | (None, w2) =>
            let '(_, w3) := logrus_Debugf "Wrote kssh client config files for the teams: %v" teams w2 in
            (None, w3)
        end
    end.

(** Lines 309-313: the teams [deleteClientConfig] ranges over. *)
Definition deleteClientConfig_teams (conf : Config) : list string :=
  let teams := GetTeams conf in
  if decide (GetChatTeam conf <> EmptyString)
  then teams ++ [GetChatTeam conf]
  else teams.

(** Lines 315-321: the loop of [deleteClientConfig]. *)
Fixpoint deleteClientConfig_loop (teams : list string) : M (option error) :=
  fun w =>
    match teams with
    | [] => (None, w)
    | team :: rest =>
        let filename := team_config_filename team in
        match KBFSDelete filename w with
        | (Some e, w1) => (Some e, w1)
        | (None, w1) => deleteClientConfig_loop rest w1
        end
    end.

(** [deleteClientConfig]: Retract. *)
Definition deleteClientConfig (conf : Config) : M (option error) :=
  fun w =>
    let teams := deleteClientConfig_teams conf in
    match deleteClientConfig_loop teams w with
    | (Some e, w1) => (Some e, w1)
    | (None, w1) =>
        let '(_, w2) := logrus_Debugf "Deleted kssh client config files for the teams: %v" teams w1 in
        (None, w2)
    end.

(** [captureControlCToDeleteClientConfig]: registers the signal handler.
    The handler itself runs only when a signal arrives, which no run
    modelled here delivers. *)
Definition captureControlCToDeleteClientConfig (conf : Config) : M unit :=
  fun w => (tt, record (OpSignalNotify conf) None w).

(** [loadServerConfig]. *)
Definition loadServerConfig : M (result Config) :=
  fun w =>
    let conf := environ w in
    match config_ValidateConfig conf false w with
    | (Some e, w1) => (Err ("Failed to validate config: " +:+ e), w1)
    | (None, w1) => (Ok conf, w1)
    end.

(** [loadServerConfigAndWriteClientConfig]. *)
Definition loadServerConfigAndWriteClientConfig : M (result Config) :=
  fun w =>
    match loadServerConfig w with
    | (Err e, w1) => (Err e, w1)
    | (Ok conf, w1) =>
        match writeClientConfig conf w1 with
        | (Some e, w2) => (Err ("Failed to write the client config: " +:+ e), w2)
        | (None, w2) => (Ok conf, w2)
        end
    end.

(** Line 132: the [overwrite] argument [generateAction] computes from
    the value of the environment variable [FORCE_WRITE]. *)
Definition force_write (FORCE_WRITE : string) : bool :=
  bool_decide (strings_ToLower FORCE_WRITE = "true").

(** [generateAction]: the [keybaseca generate] subcommand.
    [sshutils.Generate] is not in [keybaseca.go] and is a parameter, as
    is the value [os.Getenv] returns for [FORCE_WRITE]. *)
Definition generateAction (sshutils_Generate : Config -> bool -> M (option error))
    (FORCE_WRITE : string) (c : Context) : M (option error) :=
  fun w =>
    match loadServerConfig w with
    | (Err e, w1) => (Some e, w1)
    | (Ok conf, w1) =>
        let '(_, w2) := captureControlCToDeleteClientConfig conf w1 in
        match sshutils_Generate conf (force_write FORCE_WRITE) w2 with
        | (Some e, w3) => (Some ("Failed to generate a new key: " +:+ e), w3)
        | (None, w3) => (None, w3)
        end
    end.

(** [serviceAction]: the [keybaseca service] subcommand. *)
Definition serviceAction (c : Context) : M (option error) :=
  fun w =>
    match loadServerConfigAndWriteClientConfig w with
    | (Err e, w1) => (Some e, w1)
    | (Ok conf, w1) =>
        let '(_, w2) := captureControlCToDeleteClientConfig conf w1 in
        match bot_StartBot conf w2 with
        | (Some e, w3) => (Some ("CA chatbot crashed: " +:+ e), w3)
        | (None, w3) => deleteClientConfig conf w3
        end
    end.

(** The event of a deletion of [team]'s entry that succeeded. *)
Definition delete_ok (team : string) : Event :=
  (OpKBFSDelete (team_config_filename team), None).

(** [ev] is the successful write of the entry [writeClientConfig] builds
    for [team]. *)
Definition written (conf : Config) (username team : string) (ev : Event) : Prop :=
  exists content,
    json_Marshal (writeClientConfig_entry conf username team) = Ok content
    /\ ev = (OpKBFSWrite (team_config_filename team) content false, None).

(** *** Local file system, terminal, signer *)

(** The error [os.IsNotExist] recognises. *)
Definition ErrNotExist : error := "file does not exist".

Definition os_IsNotExist (err : option error) : bool :=
  bool_decide (err = Some ErrNotExist).

(** [os.Stat(name)], the [FileInfo] dropped as the callers drop it. *)
Definition os_Stat (name : string) : M (option error) :=
  fun w =>
    let op := OpStat name in
    let r := match fault w op with
             | Some e => Some e
             | None => match disk w !! name with
                       | Some _ => None
                       | None => Some ErrNotExist
                       end
             end in
    (r, record op r w).

(** [ioutil.ReadFile(filename)]. *)
Definition ioutil_ReadFile (filename : string) : M (result string) :=
  fun w =>
    let op := OpReadFile filename in
    match fault w op with
    | Some e => (Err e, record op (Some e) w)
    | None =>
        match disk w !! filename with
        | Some bytes => (Ok bytes, record op None w)
        | None => (Err ErrNotExist, record op (Some ErrNotExist) w)
        end
    end.

(** [ioutil.WriteFile(filename, data, perm)]: the file is opened with
    [O_WRONLY|O_CREATE|O_TRUNC] and then written.  A call that fails
    either could not open the file, which leaves the disk as it was, or
    failed after opening it, which leaves the file created or truncated
    and holding the bytes written so far; the oracle says which. *)
Definition ioutil_WriteFile (filename data : string) : M (option error) :=
  fun w =>
    let op := OpWriteFile filename data in
    match fault w op with
    | Some e =>
        match bytes_written w op with
        | Some n =>
            (Some e, record op (Some e)
                       (set_disk (insert filename (substring 0 n data)) w))
        | None => (Some e, record op (Some e) w)
        end
    | None => (None, record op None (set_disk (insert filename data) w))
    end.

(** [fmt.Println(s)] and [fmt.Printf] with its arguments filled in. *)
Definition fmt_Println (s : string) : M unit := fun w => (tt, print (s +:+ nl) w).
Definition fmt_Printf (s : string) : M unit := fun w => (tt, print s w).

(** [fmt.Scanln(&response)]: the token stored and the error. *)
Definition fmt_Scanln : M (string * option error) :=
  fun w => ((stdin_token w, fault w OpScanln), record OpScanln (fault w OpScanln) w).

(** [uuid.NewRandom()] followed by [String()]. *)
Definition uuid_NewRandom : M (result string) :=
  fun w =>
    match fault w OpNewRandom with
    | Some e => (Err e, record OpNewRandom (Some e) w)
    | None => (Ok (uuid_String w), record OpNewRandom None w)
    end.

(** [sshutils.SignKey]. *)
Definition sshutils_SignKey (caKeyLocation keyID principals expiration publicKey : string)
  : M (result string) :=
  fun w =>
    let op := OpSignKey caKeyLocation keyID principals expiration publicKey in
    match fault w op with
    | Some e => (Err e, record op (Some e) w)
    | None => (Ok (ssh_signature w op), record op None w)
    end.

(** The certificate path [signAction] derives from [--public-key]. *)
Definition sign_certPath (c : Context) : string :=
  KeyPathToCert (PubKeyPathToKeyPath (flag_public_key c)).

(** [signAction]: the [keybaseca sign] subcommand. *)
Definition signAction (c : Context) : M (option error) :=
  fun w =>
    let conf := environ w in
    match config_ValidateConfig conf true w with
    | (Some e, w1) => (Some ("Invalid config: " +:+ e), w1)
    | (None, w1) =>
    let principals := strings_Join (GetTeams conf) "," in
    let expiration := GetKeyExpiration conf in
    match uuid_NewRandom w1 with
    | (Err e, w2) => (Some ("Failed to generate unique key ID: " +:+ e), w2)
    | (Ok randomUUID, w2) =>
    let filename := flag_public_key c in
    match ioutil_ReadFile filename w2 with
    | (Err e, w3) =>
        (Some ("Failed to read file at " +:+ filename +:+ " to get the public key: " +:+ e), w3)
    | (Ok pubKey, w3) =>
    match sshutils_SignKey (GetCAKeyLocation conf) (randomUUID +:+ ":keybaseca-sign")
                           principals expiration pubKey w3 with
    | (Err e, w4) => (Some ("Failed to sign key: " +:+ e), w4)
    | (Ok signature, w4) =>
    let certPath := sign_certPath c in
    let '(err, w5) := os_Stat certPath w4 in
    if os_IsNotExist err || flag_overwrite c then
      match ioutil_WriteFile certPath signature w5 with
      | (Some e, w6) => (Some ("Failed to write certificate to file: " +:+ e), w6)
      | (None, w6) =>
          let '(_, w7) := fmt_Printf ("Provisioned new certificate in " +:+ certPath +:+ nl) w6 in
          (None, w7)
      end
    else
      let '(_, w6) := fmt_Printf ("Provisioned new certificate. Place this in " +:+ certPath
                                  +:+ " in order to use it with ssh." +:+ nl) w5 in
      let '(_, w7) := fmt_Printf (nl +:+ "```" +:+ nl +:+ signature +:+ "```" +:+ nl) w6 in
      (None, w7)
    end end end end.

(** The question [backupAction] prints. *)
Definition backup_prompt : string :=
  "Are you sure you want to export the CA private key? If this key is compromised, an "
  +:+ "attacker could access every server that you have configured with this bot. Type "
  +:+ dquote +:+ "yes" +:+ dquote +:+ " to confirm.".

(** [backupAction]: the [keybaseca backup] subcommand. *)
Definition backupAction (c : Context) : M (option error) :=
  fun w =>
    let '(_, w1) := fmt_Println backup_prompt w in
    let '((response, err), w2) := fmt_Scanln w1 in
    match err with
    | Some e => (Some e, w2)
    | None =>
    if decide (response <> "yes")
    then (Some "Did not get confirmation of key export, aborting", w2)
    else
    match loadServerConfig w2 with
    | (Err e, w3) => (Some e, w3)
    | (Ok conf, w3) =>
    match ioutil_ReadFile (GetCAKeyLocation conf) w3 with
    | (Err e, w4) =>
        (Some ("Failed to load the CA key from " +:+ GetCAKeyLocation conf +:+ ": " +:+ e), w4)
    | (Ok bytes, w4) =>
        let '(_, w5) := klog_Log conf "Exported CA key to stdout" w4 in
        let '(_, w6) := fmt_Println (nl +:+ "Keep this key somewhere very safe. We recommend keeping a physical copy of it in a secure place.") w5 in
        let '(_, w7) := fmt_Println EmptyString w6 in
        let '(_, w8) := fmt_Println bytes w7 in
        (None, w8)
    end end end.

(** Lines 335-342: what the goroutine started by
    [captureControlCToDeleteClientConfig] does once a signal has arrived.
    The result is the status [os.Exit] ends the process with. *)
Definition captureControlC_handler (conf : Config) : M nat :=
  fun w =>
    let '(_, w1) := fmt_Println "losing CA bot..." w in
    match deleteClientConfig conf w1 with
    | (Some e, w2) =>
        let '(_, w3) := fmt_Printf ("Failed to delete client config: " +:+ e) w2 in
        (1, w3)
    | (None, w2) => (0, w2)
    end.

(** [os.Remove(name)]. *)
Definition os_Remove (name : string) : M (option error) :=
  fun w =>
    let op := OpRemove name in
    match fault w op with
    | Some e => (Some e, record op (Some e) w)
    | None =>
        match disk w !! name with
        | Some _ => (None, record op None (set_disk (delete name) w))
        | None => (Some ErrNotExist, record op (Some ErrNotExist) w)
        end
    end.

(** The case of the [switch] of [mainAction] that runs. *)
Inductive MainCase : Type :=
| CaseWipeAllConfigs
| CaseWipeLogs
| CaseDefault.

Definition mainAction_case (c : Context) : MainCase :=
  if flag_wipe_all_configs c then CaseWipeAllConfigs
  else if flag_wipe_logs c then CaseWipeLogs
  else CaseDefault.

(** Lines 243-260: the [wipe-logs] case of [mainAction]. *)
Definition mainAction_wipe_logs : M (option error) :=
  fun w =>
    match loadServerConfig w with
    | (Err e, w1) => (Some e, w1)
    | (Ok conf, w1) =>
        let logLocation := GetLogLocation conf in
        let '(err, w2) :=
          if strings_HasPrefix logLocation "/keybase/"
          then KBFSDelete logLocation w1
          else os_Remove logLocation w1 in
        match err with
        | Some e =>
            (Some ("Failed to delete log file at " +:+ logLocation +:+ ": " +:+ e), w2)
        | None =>
            let '(_, w3) := fmt_Println ("Wiped existing log file at " +:+ logLocation) w2 in
            (None, w3)
        end
    end.

End Orchestrator.

(** ** Bounded Maintenance Scanner

    The [wipe-all-configs] case of [mainAction] starts one goroutine per
    team.  The goroutines and the main routine are modelled as an
    interleaving of atomic steps, one per synchronisation operation,
    store operation, or access to a variable the goroutines share; any
    step that is enabled may be the next one. *)

(** Where a goroutine of lines 220-239 stands: before the send on
    [boundChan] (222), before [KBFSFileExists] (225), before [KBFSDelete]
    and the assignment of its result to [err] (227), before the test of
    [err] (228), before the print of [err] (229), before the locked
    append (231-233), before [semaphore.Done()] (235), before the receive
    from [boundChan] (238), and returned. *)
Inductive Phase : Type :=
| PAcquire | PExists | PDelete | PCheckErr | PPrintErr | PAppend
| PDone | PRelease | PFinished.

#[global] Instance Phase_eq_dec : EqDecision Phase.
Proof. solve_decision. Defined.

Record Task : Type := mkTask {
  task_team : string;
  task_pc : Phase;
}.

(** The main routine: in the loop of line 219 with the teams still to
    launch (then waiting at line 241), or past the report of line 242. *)
Inductive MainPc : Type :=
| MLaunch (rest : list string)
| MReturned.

#[global] Instance MainPc_eq_dec : EqDecision MainPc.
Proof. solve_decision. Defined.

Record Scan : Type := mkScan {
  world : World;
  tasks : list Task;            (* the goroutines launched so far *)
  mainpc : MainPc;
  boundChan : nat;              (* values buffered in [boundChan] *)
  semaphore : nat;              (* the counter of the [sync.WaitGroup] *)
  teamsFound : list string;
  scan_err : option error;      (* [err] of line 209, which every goroutine assigns *)
}.

Section Scanner.
Context `{E : Externals}.

(** The [filename] of line 224. *)
Definition scan_filename (team : string) : string :=
  "/keybase/team/" +:+ team +:+ "/" +:+ ConfigFilename.

(** Lines 209-218, the start of the [wipe-all-configs] case of
    [mainAction]: list the teams, set up the wait group, the channel and
    the result list.  [err] is [nil] past line 212. *)
Definition wipe_all_configs_start (w : World) : result Scan :=
  match KBFSList "/keybase/team/" w with
  | (Err e, w1) => Err e
  | (Ok teams, w1) =>
      Ok {| world := w1; tasks := []; mainpc := MLaunch teams;
            boundChan := 0; semaphore := length teams; teamsFound := [];
            scan_err := None |}
  end.

Definition set_task (i : nat) (pc : Phase) (s : Scan) : list Task :=
  match tasks s !! i with
  | Some t => <[i := mkTask (task_team t) pc]> (tasks s)
  | None => tasks s
  end.

(** What [fmt.Printf] with the verb [v] and a newline prints for [err]. *)
Definition error_line (err : option error) : string :=
  match err with
  | Some e => e +:+ nl
  | None => "<nil>" +:+ nl
  end.

(** One step of goroutine [i]. *)
Definition goroutine_step (i : nat) (s : Scan) : option Scan :=
  match tasks s !! i with
  | None => None
  | Some t =>
      let team := task_team t in
      let filename := scan_filename team in
      match task_pc t with
      | PAcquire =>
          (* boundChan <- 0: blocks while the buffer is full *)
          if decide (boundChan s < BoundedParallelismLimit)
          then Some (mkScan (world s) (set_task i PExists s) (mainpc s)
                            (S (boundChan s)) (semaphore s) (teamsFound s) (scan_err s))
          else None
      | PExists =>
          let '((exists_, _), w1) := KBFSFileExists filename (world s) in
          Some (mkScan w1 (set_task i (if exists_ then PDelete else PDone) s) (mainpc s)
                       (boundChan s) (semaphore s) (teamsFound s) (scan_err s))
      | PDelete =>
          (* err = KBFSDelete(filename) *)
          let '(err, w1) := KBFSDelete filename (world s) in
          Some (mkScan w1 (set_task i PCheckErr s) (mainpc s)
                       (boundChan s) (semaphore s) (teamsFound s) err)
      | PCheckErr =>
          (* if err != nil *)
          Some (mkScan (world s)
                       (set_task i (match scan_err s with
                                    | Some _ => PPrintErr
                                    | None => PAppend
                                    end) s) (mainpc s)
                       (boundChan s) (semaphore s) (teamsFound s) (scan_err s))
      | PPrintErr =>
          let '(_, w1) := fmt_Printf (error_line (scan_err s)) (world s) in
          Some (mkScan w1 (set_task i PAppend s) (mainpc s)
                       (boundChan s) (semaphore s) (teamsFound s) (scan_err s))
      | PAppend =>
          Some (mkScan (world s) (set_task i PDone s) (mainpc s)
                       (boundChan s) (semaphore s) (teamsFound s ++ [team]) (scan_err s))
      | PDone =>
          Some (mkScan (world s) (set_task i PRelease s) (mainpc s)
                       (boundChan s) (pred (semaphore s)) (teamsFound s) (scan_err s))
      | PRelease =>
          (* <-boundChan *)
          Some (mkScan (world s) (set_task i PFinished s) (mainpc s)
                       (pred (boundChan s)) (semaphore s) (teamsFound s) (scan_err s))
      | PFinished => None
      end
  end.

(** What line 242 prints. *)
Definition scan_report (found : list string) : string :=
  "Deleted configs found in these teams: [" +:+ strings_Join found " " +:+ "]" +:+ nl.

(** One step of the main routine: launch the next goroutine, or, all
    launched, pass [semaphore.Wait()] once the counter is zero and print. *)
Definition main_step (s : Scan) : option Scan :=
  match mainpc s with
  | MLaunch (team :: rest) =>
      Some (mkScan (world s) (tasks s ++ [mkTask team PAcquire]) (MLaunch rest)
                   (boundChan s) (semaphore s) (teamsFound s) (scan_err s))
  | MLaunch [] =>
      if decide (semaphore s = 0)
      then Some (mkScan (snd (fmt_Printf (scan_report (teamsFound s)) (world s)))
                        (tasks s) MReturned
                        (boundChan s) (semaphore s) (teamsFound s) (scan_err s))
      else None
  | MReturned => None
  end.

(** Who moves next. *)
Inductive Sched : Type :=
| RunMain
| RunGo (i : nat).

Definition step_by (a : Sched) (s : Scan) : option Scan :=
  match a with
  | RunMain => main_step s
  | RunGo i => goroutine_step i s
  end.

(** The interleaving semantics. *)
Definition step (s s' : Scan) : Prop := exists a, step_by a s = Some s'.

(** A run under a given schedule; a choice that is blocked is skipped. *)
Fixpoint run (sched : list Sched) (s : Scan) : Scan :=
  match sched with
  | [] => s
  | a :: rest =>
      match step_by a s with
      | Some s' => run rest s'
      | None => run rest s
      end
  end.

(** A goroutine holds a slot of [boundChan] from its send to its receive;
    its store operations are in flight in the first two of these phases. *)
Definition holds_slot (t : Task) : bool :=
  match task_pc t with
  | PAcquire | PFinished => false
  | _ => true
  end.

Definition in_flight (t : Task) : bool :=
  match task_pc t with
  | PExists | PDelete => true
  | _ => false
  end.

(** A goroutine that has not yet called [semaphore.Done()]. *)
Definition not_done (t : Task) : bool :=
  match task_pc t with
  | PRelease | PFinished => false
  | _ => true
  end.

(** A goroutine that has called [KBFSDelete] and not yet appended. *)
Definition awaits_append (t : Task) : bool :=
  match task_pc t with
  | PCheckErr | PPrintErr | PAppend => true
  | _ => false
  end.

Definition count (f : Task -> bool) (ts : list Task) : nat :=
  length (filter (fun t => f t = true) ts).

(** The teams of the goroutines between [KBFSDelete] and the append. *)
Definition appending (ts : list Task) : list string :=
  map task_team (filter (fun t => awaits_append t = true) ts).




(** [e] is the error of a deletion made in [evs]. *)
Definition deletion_error (evs : list Event) (e : error) : Prop :=
  exists p, (OpKBFSDelete p, Some e) ∈ evs.

(** The events of the scan so far.  The deletions made are those of the
    teams recorded or about to be.  A goroutine past its check has
    checked.  A file whose deletion succeeded is absent.  Every outcome
    is the oracle's.  The shared [err] holds [nil] or the error of a
    deletion, and a goroutine about to print it saw one.  What has been
    printed is the report, errors of deletions, and [<nil>] where [err]
    was overwritten between its test and its print. *)
Definition events_ok (s0 s : Scan) (evs : list Event) : Prop :=
  trace (world s) = trace (world s0) ++ evs
  /\ deleted_paths evs ≡ₚ map scan_filename (teamsFound s ++ appending (tasks s))
  /\ (forall t, t ∈ tasks s -> task_pc t <> PAcquire -> task_pc t <> PExists ->
        exists r, (OpKBFSFileExists (scan_filename (task_team t)), r) ∈ evs)
  /\ (forall p, (OpKBFSDelete p, None) ∈ evs -> kbfs (world s) !! p = None)
  /\ (forall op r, (op, r) ∈ evs -> exists w, r = fault w op)
  /\ (forall e, scan_err s = Some e -> deletion_error evs e)
  /\ (forall t, t ∈ tasks s -> task_pc t = PPrintErr -> exists e, deletion_error evs e)
  /\ (exists out,
        stdout (world s) = stdout (world s0) ++ out
        /\ forall line, line ∈ out ->
             (exists found, line = scan_report found)
             \/ (exists e, deletion_error evs e /\ line = e +:+ nl)
             \/ (line = "<nil>" +:+ nl /\ exists e, deletion_error evs e)).

(** What each goroutine knows of its team's file, given the store [k0]
    the scan started from: before its deletion the team is not recorded;
    between the check and the append the file was there at the start;
    afterwards the team is recorded exactly if the file was there. *)
Definition task_ok (k0 : gmap string string) (found : list string) (t : Task) : Prop :=
  match task_pc t with
  | PAcquire | PExists => task_team t ∉ found
  | PDelete | PCheckErr | PPrintErr | PAppend =>
      is_Some (k0 !! scan_filename (task_team t)) /\ task_team t ∉ found
  | PDone | PRelease | PFinished =>
      task_team t ∈ found <-> is_Some (k0 !! scan_filename (task_team t))
  end.

(** The store during the scan: only the files of the teams recorded or
    about to be have changed; no team is recorded twice; the recorded
    teams have been launched. *)
Definition store_ok (k0 : gmap string string) (s : Scan) : Prop :=
  (forall p, p ∉ map scan_filename (teamsFound s ++ appending (tasks s)) ->
     kbfs (world s) !! p = k0 !! p)
  /\ NoDup (teamsFound s)
  /\ (forall t, t ∈ tasks s -> task_ok k0 (teamsFound s) t)
  /\ (forall team, team ∈ teamsFound s -> team ∈ map task_team (tasks s)).

Definition to_launch (s : Scan) : list string :=
  match mainpc s with
  | MLaunch rest => rest
  | MReturned => []
  end.

(** The calls of the scan: existence checks and deletions, at the scan
    paths of the given teams. *)
Definition scan_call (teams : list string) (ev : Event) : Prop :=
  exists team, team ∈ teams
    /\ (fst ev = OpKBFSFileExists (scan_filename team)
        \/ fst ev = OpKBFSDelete (scan_filename team)).

(** A goroutine that has made its existence check, and one that has
    made its deletion or skipped it. *)
Definition past_check (t : Task) : bool :=
  match task_pc t with
  | PAcquire | PExists => false
  | _ => true
  end.

Definition past_delete (t : Task) : bool :=
  match task_pc t with
  | PAcquire | PExists | PDelete => false
  | _ => true
  end.

Definition teams_where (f : Task -> bool) (ts : list Task) : list string :=
  map task_team (filter (fun t => f t = true) ts).

End Scanner.

(** ** Concrete environments

    Used to run the definitions on explicit inputs. *)

(** Go's [strings.TrimSuffix]. *)
Definition strings_TrimSuffix (s suffix : string) : string :=
  let n := String.length s - String.length suffix in
  if decide (String.length suffix <= String.length s
             /\ substring n (String.length suffix) s = suffix)
  then substring 0 n s
  else s.

(** A JSON rendering of a Client Config Entry. *)
Definition sample_json (cf : ConfigFile) : string :=
  "{teamname:" +:+ TeamName cf +:+ ",channelname:" +:+ ChannelName cf
  +:+ ",botname:" +:+ BotName cf +:+ "}".

(** The oracle that fails exactly the calls listed in [bad]. *)
Definition fault_on (bad : list Op) : World -> Op -> option error :=
  fun _ op => if decide (op ∈ bad) then Some "unavailable" else None.

(** An environment in which the calls in [bad] fail, the user types
    [token], and at most [limit] scanner goroutines run at a time.  A
    [WriteFile] that fails has truncated the file and written nothing;
    [klog.Log] adds a dated line to the log and prints nothing. *)
Definition sample_externals (bad : list Op) (token : string) (limit : nat) : Externals := {|
  ConfigFilename := "kssh-client.config";
  BoundedParallelismLimit := limit;
  KeyPathToCert := fun keyPath => keyPath +:+ "-cert.pub";
  PubKeyPathToKeyPath := fun pubKeyPath => strings_TrimSuffix pubKeyPath ".pub";
  json_Marshal := fun cf => Ok (sample_json cf);
  fault := fault_on bad;
  bot_username := fun _ => "cabot";
  stdin_token := fun _ => token;
  uuid_String := fun _ => "6ba7b810-9dad-11d1-80b4-00c04fd430c8";
  ssh_signature := fun _ op =>
    match op with
    | OpSignKey _ keyID principals _ publicKey =>
        "cert(" +:+ keyID +:+ ";" +:+ principals +:+ ";" +:+ publicKey +:+ ")"
    | _ => EmptyString
    end;
  bytes_written := fun _ _ => Some 0;
  log_line := fun _ op =>
    match op with
    | OpLog _ msg => Some ("[2019-09-01 12:00:00] " +:+ msg +:+ nl)
    | _ => None
    end;
  log_print := fun _ _ => [];
|}.

Definition sample_config (teams : list string) (chatTeam channel : string) : Config := {|
  GetCAKeyLocation := "/ca/keybase-ca-key";
  GetTeams := teams;
  GetChatTeam := chatTeam;
  GetChannelName := channel;
  GetKeyExpiration := "+1h";
  GetLogLocation := "/ca/ca.log";
|}.

(** A world with the given configuration, store contents and team
    folders, the CA key and one public key on disk, nothing printed and
    nothing called yet. *)
Definition sample_world (conf : Config) (store : gmap string string)
    (teams : list string) : World := {|
  environ := conf;
  kbfs := store;
  kbfs_teams := teams;
  disk := {[ "/ca/keybase-ca-key" := "CA PRIVATE KEY";
             "/home/u/.ssh/id_ed25519.pub" := "ssh-ed25519 AAAA u@host" ]};
  stdout := [];
  trace := [];
|}.

Definition sample_context (overwrite : bool) : Context := {|
  flag_public_key := "/home/u/.ssh/id_ed25519.pub";
  flag_overwrite := overwrite;
  flag_wipe_all_configs := false;
  flag_wipe_logs := false;
|}.

(** The state [wipe-all-configs] starts its goroutines from (the main
    routine already returned if the listing failed). *)
Definition start_of `{E : Externals} (w0 : World) : Scan :=
  match wipe_all_configs_start w0 with
  | Ok s0 => s0
  | Err _ => mkScan w0 [] MReturned 0 0 [] None
  end.

(** Launch [n] goroutines, then give each of them [k] turns in order. *)
Definition round_robin (n k : nat) : list Sched :=
  repeat RunMain n ++ concat (repeat (map RunGo (seq 0 n)) k).

Example Join_team_config :
  filepath.Join ["/keybase/team/"; "alpha"; "kssh-client.config"]
  = "/keybase/team/alpha/kssh-client.config".
Proof. reflexivity. Qed.

Example Clean_dotdot : filepath.Clean "/a/b/../../../c/./d//" = "/c/d".
Proof. reflexivity. Qed.

Example Clean_relative : filepath.Clean "a/../../b" = "../b".
Proof. reflexivity. Qed.

Example Clean_table :
  map filepath.Clean
    [EmptyString; "abc//def//ghi"; "/abc/def/../../.."; "abc/def/../../..";
     "abc/../../././../def"; "/../abc"; "abc/."]
  = ["."; "abc/def/ghi"; "/"; ".."; "../../def"; "/abc"; "abc"].
Proof. reflexivity. Qed.

Example wipe_logs_on_disk :
  let E := sample_externals [] "yes" 2 in
  let w := set_disk (insert "/ca/ca.log" "log line")
             (sample_world (sample_config ["alpha"] EmptyString EmptyString) ∅ []) in
  let r := mainAction_wipe_logs w in
  fst r = None /\ disk (snd r) !! "/ca/ca.log" = None
  /\ ops_of (trace (snd r))
     = [OpValidateConfig (environ w) false; OpRemove "/ca/ca.log"].
Proof. cbv zeta. repeat split; compute_done. Qed.

Example service_sample :
  let E := sample_externals [] "yes" 2 in
  let conf := sample_config ["alpha"; "beta"] EmptyString EmptyString in
  let '(err, w) := serviceAction (sample_context false) (sample_world conf ∅ []) in
  err = None /\ kbfs w = ∅ /\ length (trace w) = 8.
Proof. vm_compute. auto. Qed.

(** * Properties *)

(** ** The trace only grows *)

Lemma events_since_app (w w' : World) (evs : list Event) :
  trace w' = trace w ++ evs -> events_since w w' = evs.
Proof.
  intros Htr. unfold events_since. rewrite Htr. apply drop_app_length.
Qed.

Lemma trace_record (op : Op) (r : option error) (w : World) :
  trace (record op r w) = trace w ++ [(op, r)].
Proof. reflexivity. Qed.

Section DistributorFacts.
Context `{E : Externals}.

Lemma KBFSDelete_ok (p : string) (w w' : World) :
  KBFSDelete p w = (None, w') ->
  fault w (OpKBFSDelete p) = None
  /\ w' = record (OpKBFSDelete p) None (set_kbfs (delete p) w).
Proof.
  unfold KBFSDelete. destruct (fault w (OpKBFSDelete p)); intros [= <-]; auto.
Qed.

Lemma KBFSDelete_err (p : string) (w w' : World) (e : error) :
  KBFSDelete p w = (Some e, w') ->
  fault w (OpKBFSDelete p) = Some e /\ w' = record (OpKBFSDelete p) (Some e) w.
Proof.
  unfold KBFSDelete. destruct (fault w (OpKBFSDelete p)); intros [= <- <-]; auto.
Qed.

Lemma KBFSWrite_ok (p c : string) (w w' : World) :
  KBFSWrite p c false w = (None, w') ->
  fault w (OpKBFSWrite p c false) = None
  /\ w' = record (OpKBFSWrite p c false) None (set_kbfs (insert p c) w).
Proof.
  unfold KBFSWrite. destruct (fault w (OpKBFSWrite p c false)); intros [= <-]; auto.
Qed.

Lemma KBFSWrite_err (p c : string) (w w' : World) (e : error) :
  KBFSWrite p c false w = (Some e, w') ->
  fault w (OpKBFSWrite p c false) = Some e
  /\ w' = record (OpKBFSWrite p c false) (Some e) w.
Proof.
  unfold KBFSWrite. destruct (fault w (OpKBFSWrite p c false)); intros [= <- <-]; auto.
Qed.

(** *** The loop of Retract *)

Lemma deleteClientConfig_loop_spec (teams : list string) (w w' : World) (err : option error) :
  deleteClientConfig_loop teams w = (err, w') ->
  (err = None /\ trace w' = trace w ++ map delete_ok teams)
  \/ (exists pre team post e,
        teams = pre ++ team :: post /\ err = Some e
        /\ trace w' = trace w ++ map delete_ok pre
                      ++ [(OpKBFSDelete (team_config_filename team), Some e)]).
Proof.
  revert w. induction teams as [|team rest IH]; intros w Hrun; simpl in Hrun.
  - injection Hrun as <- <-. left. split; [done|]. simpl. by rewrite app_nil_r.
  - destruct (KBFSDelete (team_config_filename team) w) as [[e|] w1] eqn:Hdel.
    + injection Hrun as <- <-. apply KBFSDelete_err in Hdel as [_ ->].
      right. exists [], team, rest, e. done.
    + apply KBFSDelete_ok in Hdel as [_ ->].
      destruct (IH _ Hrun) as [[-> Htr] | (pre & t & post & e & -> & -> & Htr)].
      * left. split; [done|]. rewrite Htr, trace_record. simpl.
        by rewrite <- app_assoc.
      * right. exists (team :: pre), t, post, e. split; [done|]. split; [done|].
        rewrite Htr, trace_record. simpl. by rewrite <- !app_assoc.
Qed.

Lemma deleteClientConfig_loop_keeps_absent (teams : list string) (w w' : World)
    (err : option error) (p : string) :
  deleteClientConfig_loop teams w = (err, w') ->
  kbfs w !! p = None -> kbfs w' !! p = None.
Proof.
  revert w. induction teams as [|team rest IH]; intros w Hrun Hp; simpl in Hrun.
  - by injection Hrun as <- <-.
  - destruct (KBFSDelete (team_config_filename team) w) as [[e|] w1] eqn:Hdel.
    + injection Hrun as <- <-. by apply KBFSDelete_err in Hdel as [_ ->].
    + apply KBFSDelete_ok in Hdel as [_ ->]. apply (IH _ Hrun). simpl.
      destruct (decide (team_config_filename team = p)) as [<-|Hne].
      * apply lookup_delete_eq.
      * by rewrite lookup_delete_ne.
Qed.

Lemma deleteClientConfig_loop_removes (teams : list string) (w w' : World) (team : string) :
  deleteClientConfig_loop teams w = (None, w') ->
  team ∈ teams -> kbfs w' !! team_config_filename team = None.
Proof.
  revert w. induction teams as [|t rest IH]; intros w Hrun Hin; simpl in Hrun.
  - by apply elem_of_nil in Hin.
  - destruct (KBFSDelete (team_config_filename t) w) as [[e|] w1] eqn:Hdel; [done|].
    apply KBFSDelete_ok in Hdel as [_ ->].
    apply elem_of_cons in Hin as [-> |Hin].
    + eapply deleteClientConfig_loop_keeps_absent; [exact Hrun|]. simpl.
      apply lookup_delete_eq.
    + by apply (IH _ Hrun).
Qed.

Lemma deleteClientConfig_unfold (conf : Config) (w : World) :
  deleteClientConfig conf w = deleteClientConfig_loop (deleteClientConfig_teams conf) w.
Proof.
  unfold deleteClientConfig.
  by destruct (deleteClientConfig_loop (deleteClientConfig_teams conf) w) as [[e|] w1].
Qed.

(** *** The loop of Publish *)

(** Publish only adds files. *)
Lemma writeClientConfig_loop_keeps_present (conf : Config) (username : string)
    (teams : list string) (w w' : World) (err : option error) (p : string) :
  writeClientConfig_loop conf username teams w = (err, w') ->
  is_Some (kbfs w !! p) -> is_Some (kbfs w' !! p).
Proof.
  revert w. induction teams as [|team rest IH]; intros w Hrun Hp; simpl in Hrun.
  - by injection Hrun as <- <-.
  - destruct (json_Marshal (writeClientConfig_entry conf username team)) as [content|e].
    2:{ by injection Hrun as <- <-. }
    destruct (KBFSWrite (team_config_filename team) content false w)
      as [[e|] w1] eqn:Hwr.
    + injection Hrun as <- <-. by apply KBFSWrite_err in Hwr as [_ ->].
    + apply KBFSWrite_ok in Hwr as [_ ->]. apply (IH _ Hrun). simpl.
      destruct (decide (team_config_filename team = p)) as [<-|Hne].
      * rewrite lookup_insert_eq. by eexists.
      * by rewrite lookup_insert_ne.
Qed.

(** Every run of the loop is of one of three shapes: all teams written;
    or the teams before some team written and that team's entry not
    marshalled; or the teams before it written and its write failed. *)
Lemma writeClientConfig_loop_spec (conf : Config) (username : string)
    (teams : list string) (w w' : World) (err : option error) :
  writeClientConfig_loop conf username teams w = (err, w') ->
  (exists evs,
      err = None /\ Forall2 (written conf username) teams evs
      /\ trace w' = trace w ++ evs
      /\ forall t, t ∈ teams -> is_Some (kbfs w' !! team_config_filename t))
  \/ (exists pre team post evs e,
        teams = pre ++ team :: post /\ err = Some e
        /\ Forall2 (written conf username) pre evs
        /\ (forall t, t ∈ pre -> is_Some (kbfs w' !! team_config_filename t))
        /\ ((json_Marshal (writeClientConfig_entry conf username team) = Err e
             /\ trace w' = trace w ++ evs)
            \/ (exists content,
                  json_Marshal (writeClientConfig_entry conf username team) = Ok content
                  /\ trace w' = trace w ++ evs
                       ++ [(OpKBFSWrite (team_config_filename team) content false, Some e)]))).
Proof.
  revert w. induction teams as [|team rest IH]; intros w Hrun.
  - simpl in Hrun. injection Hrun as <- <-. left. exists [].
    split; [done|]. split; [constructor|]. split; [by rewrite app_nil_r|].
    intros t Ht. by apply elem_of_nil in Ht.
  - pose proof Hrun as Hrun0. simpl in Hrun.
    destruct (json_Marshal (writeClientConfig_entry conf username team))
      as [content|e] eqn:Hjson.
    2:{ injection Hrun as <- <-. right. exists [], team, rest, [], e.
        split; [done|]. split; [done|]. split; [constructor|].
        split; [intros t Ht; by apply elem_of_nil in Ht|].
        left. split; [done|]. by rewrite app_nil_r. }
    destruct (KBFSWrite (team_config_filename team) content false w)
      as [[e|] w1] eqn:Hwr.
    + injection Hrun as <- <-. apply KBFSWrite_err in Hwr as [_ ->].
      right. exists [], team, rest, [], e.
      split; [done|]. split; [done|]. split; [constructor|].
      split; [intros t Ht; by apply elem_of_nil in Ht|].
      right. exists content. done.
    + apply KBFSWrite_ok in Hwr as [_ ->].
      set (ev := (OpKBFSWrite (team_config_filename team) content false, None) : Event).
      assert (Hev : written conf username team ev) by (by exists content).
      assert (Hteam : is_Some (kbfs w' !! team_config_filename team)).
      { eapply writeClientConfig_loop_keeps_present; [exact Hrun|]. simpl.
        rewrite lookup_insert_eq. by eexists. }
      destruct (IH _ Hrun) as [(evs & -> & Hall & Htr & Hin)
                              | (pre & t & post & evs & e & -> & -> & Hall & Hin & Hlast)].
      * left. exists (ev :: evs). split; [done|]. split; [by constructor|].
        split; [rewrite Htr, trace_record; by rewrite <- app_assoc|].
        intros t [-> |Ht]%elem_of_cons; auto.
      * right. exists (team :: pre), t, post, (ev :: evs), e.
        split; [done|]. split; [done|]. split; [by constructor|].
        split; [intros t' [-> |Ht]%elem_of_cons; auto|].
        destruct Hlast as [[Hj Htr] | (c & Hj & Htr)].
        -- left. split; [done|]. rewrite Htr, trace_record. by rewrite <- app_assoc.
        -- right. exists c. split; [done|]. rewrite Htr, trace_record.
           by rewrite <- !app_assoc.
Qed.

(** *** Publish as a whole *)

Lemma writeClientConfig_spec (conf : Config) (w : World) :
  let r := writeClientConfig conf w in
  let teams := writeClientConfig_teams conf in
  let u := bot_username w in
  let resolved := (OpGetUsername conf, None) : Event in
  (exists e, fault w (OpGetUsername conf) = Some e
             /\ r = (Some e, record (OpGetUsername conf) (Some e) w))
  \/ (fault w (OpGetUsername conf) = None
      /\ ((exists evs,
             fst r = None /\ Forall2 (written conf u) teams evs
             /\ events_since w (snd r) = resolved :: evs
             /\ forall t, t ∈ teams -> is_Some (kbfs (snd r) !! team_config_filename t))
          \/ (exists pre team post evs e,
                teams = pre ++ team :: post /\ fst r = Some e
                /\ Forall2 (written conf u) pre evs
                /\ (forall t, t ∈ pre -> is_Some (kbfs (snd r) !! team_config_filename t))
                /\ ((json_Marshal (writeClientConfig_entry conf u team) = Err e
                     /\ events_since w (snd r) = resolved :: evs)
                    \/ (exists content,
                          json_Marshal (writeClientConfig_entry conf u team) = Ok content
                          /\ events_since w (snd r) = resolved :: evs
                               ++ [(OpKBFSWrite (team_config_filename team) content false,
                                    Some e)]))))).
Proof.
  cbv zeta. unfold writeClientConfig, bot_GetUsername, logrus_Debugf.
  destruct (fault w (OpGetUsername conf)) as [e|] eqn:Hf.
  { left. by exists e. }
  right. split; [done|].
  destruct (writeClientConfig_loop conf (bot_username w) (writeClientConfig_teams conf)
              (record (OpGetUsername conf) None w)) as [err w1] eqn:Hloop.
  destruct (writeClientConfig_loop_spec _ _ _ _ _ _ Hloop)
    as [(evs & -> & Hall & Htr & Hin)
       | (pre & team & post & evs & e & Hteams & -> & Hall & Hin & Hlast)].
  - left. exists evs. simpl. repeat split; [done| |done].
    apply events_since_app. rewrite Htr, trace_record. by rewrite <- app_assoc.
  - right. exists pre, team, post, evs, e. simpl. repeat split; [done|done|done|].
    destruct Hlast as [[Hj Htr] | (c & Hj & Htr)].
    + left. split; [done|]. apply events_since_app.
      rewrite Htr, trace_record. by rewrite <- app_assoc.
    + right. exists c. split; [done|]. apply events_since_app.
      rewrite Htr, trace_record. by rewrite <- !app_assoc.
Qed.

Lemma written_in (conf : Config) (u : string) (teams : list string) (evs : list Event)
    (ev : Event) :
  Forall2 (written conf u) teams evs -> ev ∈ evs ->
  exists team, team ∈ teams /\ written conf u team ev.
Proof.
  intros Hall [i Hi]%list_elem_of_lookup.
  destruct (Forall2_lookup_r _ _ _ _ _ Hall Hi) as (team & Hteam & Hw).
  exists team. split; [|done]. apply list_elem_of_lookup. by exists i.
Qed.

Lemma in_written (conf : Config) (u : string) (teams : list string) (evs : list Event)
    (team : string) :
  Forall2 (written conf u) teams evs -> team ∈ teams ->
  exists ev, ev ∈ evs /\ written conf u team ev.
Proof.
  intros Hall [i Hi]%list_elem_of_lookup.
  destruct (Forall2_lookup_l _ _ _ _ _ Hall Hi) as (ev & Hev & Hw).
  exists ev. split; [|done]. apply list_elem_of_lookup. by exists i.
Qed.

Lemma written_paths_written (conf : Config) (u : string) (teams : list string)
    (evs : list Event) :
  Forall2 (written conf u) teams evs ->
  written_paths evs = map team_config_filename teams.
Proof.
  induction 1 as [|team ev teams evs (c & _ & ->) _ IH]; [done|].
  simpl. by rewrite <- IH.
Qed.

(** *** The claims about Publish and Retract *)


(** C2, amended.  Retract deletes in the order of the team list and
    stops at the first deletion that fails.  Either every team of the
    list was deleted and Retract reports no error; or the teams before
    some team were deleted, that team's deletion failed, Retract
    reports that error, and no team after it was attempted. *)
Theorem retract_stops_at_first_failure (conf : Config) (w : World) :
  let teams := deleteClientConfig_teams conf in
  let r := deleteClientConfig conf w in
  (fst r = None
   /\ events_since w (snd r) = map delete_ok teams
   /\ forall team, team ∈ teams -> kbfs (snd r) !! team_config_filename team = None)
  \/ (exists pre team post e,
        teams = pre ++ team :: post
        /\ fst r = Some e
        /\ events_since w (snd r)
           = map delete_ok pre ++ [(OpKBFSDelete (team_config_filename team), Some e)]).
Proof.
  cbv zeta. rewrite deleteClientConfig_unfold.
  destruct (deleteClientConfig_loop (deleteClientConfig_teams conf) w) as [err w'] eqn:Hrun.
  destruct (deleteClientConfig_loop_spec _ _ _ _ Hrun)
    as [[-> Htr] | (pre & team & post & e & Hteams & -> & Htr)].
  - left. simpl. split; [done|]. split; [by apply events_since_app|].
    intros team Hin. by eapply deleteClientConfig_loop_removes.
  - right. exists pre, team, post, e. simpl. split; [done|]. split; [done|].
    by apply events_since_app.
Qed.

(** C3, amended.  Publish followed at once by a Retract that reports no
    error leaves no Client Config Entry for any team of the computed
    list, and every path Publish wrote to was deleted by Retract. *)
Theorem publish_then_retract_leaves_nothing (conf : Config) (w : World) :
  let w1 := snd (writeClientConfig conf w) in
  let r := deleteClientConfig conf w1 in
  fst r = None ->
  (forall team, team ∈ writeClientConfig_teams conf ->
     kbfs (snd r) !! team_config_filename team = None)
  /\ (forall p, p ∈ written_paths (events_since w w1) ->
        p ∈ deleted_paths (events_since w1 (snd r)) /\ kbfs (snd r) !! p = None).
Proof.
  cbv zeta. rewrite deleteClientConfig_unfold.
  destruct (deleteClientConfig_loop (deleteClientConfig_teams conf)
              (snd (writeClientConfig conf w))) as [err w2] eqn:Hrun.
  simpl. intros ->.
  assert (Hteams : deleteClientConfig_teams conf = writeClientConfig_teams conf) by done.
  rewrite Hteams in Hrun.
  assert (Hgone : forall team, team ∈ writeClientConfig_teams conf ->
                    kbfs w2 !! team_config_filename team = None).
  { intros team Hin. by eapply deleteClientConfig_loop_removes. }
  assert (Hev : events_since (snd (writeClientConfig conf w)) w2
                = map delete_ok (writeClientConfig_teams conf)).
  { destruct (deleteClientConfig_loop_spec _ _ _ _ Hrun)
      as [[_ Htr] | (pre & team & post & e & _ & [=] & _)].
    by apply events_since_app. }
  split; [exact Hgone|].
  intros p Hp.
  assert (Hteam : exists team, team ∈ writeClientConfig_teams conf
                               /\ p = team_config_filename team).
  { destruct (writeClientConfig_spec conf w)
      as [(e & _ & Hr) | (_ & [(evs & _ & Hall & Hevs & _)
                              | (pre & team & post & evs & e & Hpre & _ & Hall & _ & Hlast)])];
      cbv zeta in *.
    - rewrite Hr in Hp. simpl in Hp. unfold events_since in Hp. simpl in Hp.
      rewrite drop_app_length in Hp. simpl in Hp. by apply elem_of_nil in Hp.
    - rewrite Hevs in Hp. simpl in Hp.
      rewrite (written_paths_written _ _ _ _ Hall) in Hp.
      apply list_elem_of_fmap in Hp as (team & -> & Hin). by exists team.
    - assert (Hp' : p ∈ map team_config_filename (pre ++ [team])).
      { destruct Hlast as [[_ Hevs] | (c & _ & Hevs)]; rewrite Hevs in Hp; simpl in Hp.
        - rewrite (written_paths_written _ _ _ _ Hall) in Hp.
          rewrite map_app. apply elem_of_app. by left.
        - unfold written_paths in Hp. rewrite omap_app in Hp. simpl in Hp.
          fold (written_paths evs) in Hp.
          rewrite (written_paths_written _ _ _ _ Hall) in Hp.
          by rewrite map_app. }
      apply list_elem_of_fmap in Hp' as (t & -> & Hin). exists t. split; [|done].
      rewrite Hpre. apply elem_of_app in Hin as [Hin|Hin%list_elem_of_singleton].
      + apply elem_of_app. by left.
      + subst t. apply elem_of_app. right. by left. }
  destruct Hteam as (team & Hin & ->). split; [|by apply Hgone].
  rewrite Hev. clear -Hin.
  induction (writeClientConfig_teams conf) as [|t ts IH].
  - by apply elem_of_nil in Hin.
  - simpl. apply elem_of_cons in Hin as [-> |Hin]; [by left|]. right. by apply IH.
Qed.

(** C8.  Every write Publish attempts puts, at the path of a team of the
    list, the marshalled entry whose bot name is the resolved account and
    whose team and channel are the override's when an override is set,
    and the team itself and the empty channel when none is; and when
    Publish reports no error every team of the list received that write. *)
Theorem publish_entry_fields (conf : Config) (w : World) :
  let r := writeClientConfig conf w in
  let entry_of (team : string) : ConfigFile :=
    if decide (GetChatTeam conf = EmptyString)
    then mkConfigFile team (bot_username w) EmptyString
    else mkConfigFile (GetChatTeam conf) (bot_username w) (GetChannelName conf) in
  (forall filename contents appendToFile outcome,
      (OpKBFSWrite filename contents appendToFile, outcome) ∈ events_since w (snd r) ->
      exists team,
        team ∈ writeClientConfig_teams conf
        /\ filename = team_config_filename team /\ appendToFile = false
        /\ json_Marshal (entry_of team) = Ok contents)
  /\ (fst r = None ->
      forall team, team ∈ writeClientConfig_teams conf ->
        exists contents,
          json_Marshal (entry_of team) = Ok contents
          /\ (OpKBFSWrite (team_config_filename team) contents false, None)
               ∈ events_since w (snd r)).
Proof.
  cbv zeta.
  destruct (writeClientConfig_spec conf w)
    as [(e & _ & Hr) | (_ & [(evs & Hok & Hall & Hevs & _)
                            | (pre & team & post & evs & e & Hpre & Herr & Hall & _ & Hlast)])];
    cbv zeta in *.
  - rewrite Hr. simpl. unfold events_since. simpl. rewrite drop_app_length. split.
    + intros ? ? ? ? [[=]|[]%elem_of_nil]%elem_of_cons.
    + done.
  - rewrite Hevs. split.
    + intros filename contents a outcome [[=]|Hin]%elem_of_cons.
      destruct (written_in _ _ _ _ _ Hall Hin) as (team & Hteam & c & Hj & [= -> -> -> ->]).
      exists team. by repeat split.
    + intros _ team Hteam.
      destruct (in_written _ _ _ _ _ Hall Hteam) as (ev & Hin & c & Hj & ->).
      exists c. split; [done|]. by right.
  - split; [|congruence].
    intros filename contents a outcome Hin.
    assert (Hcases : (OpKBFSWrite filename contents a, outcome) ∈ evs
                     \/ exists c, json_Marshal (writeClientConfig_entry conf (bot_username w) team)
                                  = Ok c
                                  /\ (OpKBFSWrite filename contents a, outcome)
                                     = (OpKBFSWrite (team_config_filename team) c false, Some e)).
    { destruct Hlast as [[_ Hevs] | (c & Hj & Hevs)]; rewrite Hevs in Hin.
      - apply elem_of_cons in Hin as [[=]|Hin]. by left.
      - apply elem_of_cons in Hin as [[=]|Hin].
        apply elem_of_app in Hin as [Hin|Hin%list_elem_of_singleton]; [by left|].
        right. by exists c. }
    destruct Hcases as [Hin'|(c & Hj & [= -> -> -> ->])].
    + destruct (written_in _ _ _ _ _ Hall Hin') as (t & Ht & c & Hj & [= -> -> -> ->]).
      exists t. split; [|done]. rewrite Hpre. apply elem_of_app. by left.
    + exists team. split; [|done]. rewrite Hpre. apply elem_of_app. right. by left.
Qed.

(** C10.  If resolving the bot account fails, Publish returns that
    error and has done nothing else: no write was attempted and the
    store is as before.  If a write fails, Publish returns that error,
    the failed write is the last thing it did, the teams before it in
    the list were written and their entries are in the store, and no
    team after it was attempted. *)
Theorem publish_failure_modes (conf : Config) (w : World) :
  let r := writeClientConfig conf w in
  (forall e, fault w (OpGetUsername conf) = Some e ->
     r = (Some e, record (OpGetUsername conf) (Some e) w)
     /\ kbfs (snd r) = kbfs w
     /\ written_paths (events_since w (snd r)) = [])
  /\ (forall filename contents appendToFile e,
        (OpKBFSWrite filename contents appendToFile, Some e) ∈ events_since w (snd r) ->
        fst r = Some e
        /\ exists pre team post evs,
             writeClientConfig_teams conf = pre ++ team :: post
             /\ filename = team_config_filename team
             /\ Forall2 (written conf (bot_username w)) pre evs
             /\ events_since w (snd r)
                = (OpGetUsername conf, None) :: evs
                  ++ [(OpKBFSWrite filename contents appendToFile, Some e)]
             /\ written_paths (events_since w (snd r))
                = map team_config_filename (pre ++ [team])
             /\ forall t, t ∈ pre -> is_Some (kbfs (snd r) !! team_config_filename t)).
Proof.
  cbv zeta. split.
  - intros e Hf. unfold writeClientConfig, bot_GetUsername. rewrite Hf. simpl.
    split; [done|]. split; [done|]. unfold events_since. simpl.
    by rewrite drop_app_length.
  - intros filename contents a e Hin.
    assert (Hnot : forall u teams evs, Forall2 (written conf u) teams evs ->
                     (OpKBFSWrite filename contents a, Some e) ∉ evs).
    { intros u teams evs Hall Hin'.
      by destruct (written_in _ _ _ _ _ Hall Hin') as (t & _ & c & _ & [=]). }
    destruct (writeClientConfig_spec conf w)
      as [(e' & _ & Hr) | (_ & [(evs & Hok & Hall & Hevs & _)
                               | (pre & team & post & evs & e' & Hpre & Herr & Hall
                                  & Hpres & Hlast)])];
      cbv zeta in *.
    + rewrite Hr in Hin. unfold events_since in Hin. simpl in Hin.
      rewrite drop_app_length in Hin.
      by apply elem_of_cons in Hin as [[=]|[]%elem_of_nil].
    + rewrite Hevs in Hin. apply elem_of_cons in Hin as [[=]|Hin].
      by apply (Hnot _ _ _ Hall) in Hin.
    + destruct Hlast as [[_ Hevs] | (c & Hj & Hevs)]; rewrite Hevs in Hin.
      { apply elem_of_cons in Hin as [[=]|Hin]. by apply (Hnot _ _ _ Hall) in Hin. }
      apply elem_of_cons in Hin as [[=]|Hin].
      apply elem_of_app in Hin as [Hin|Hin%list_elem_of_singleton];
        [by apply (Hnot _ _ _ Hall) in Hin|].
      injection Hin as -> -> -> ->. split; [done|].
      exists pre, team, post, evs. repeat split; [done|done|done| |done].
      rewrite Hevs. simpl. unfold written_paths. rewrite omap_app. simpl.
      fold (written_paths evs). rewrite (written_paths_written _ _ _ _ Hall).
      by rewrite map_app.
Qed.

(** What [serviceAction] does when the chat bot returns an error: it
    wraps the error and returns, and the last call it made is the bot. *)
Lemma serviceAction_bot_error (c : Context) (w w1 : World) (conf : Config) (e : error) :
  loadServerConfigAndWriteClientConfig w = (Ok conf, w1) ->
  fault (record (OpSignalNotify conf) None w1) (OpStartBot conf) = Some e ->
  serviceAction c w
  = (Some ("CA chatbot crashed: " +:+ e),
     record (OpStartBot conf) (Some e) (record (OpSignalNotify conf) None w1)).
Proof.
  intros Hload Hbot. unfold serviceAction. rewrite Hload. simpl.
  unfold bot_StartBot. by rewrite Hbot.
Qed.

End DistributorFacts.

(** *** Publish and Retract on explicit inputs *)



(** C2 as stated fails: when the deletion for [alpha] fails, Retract
    returns without attempting the deletion for [beta], whose entry
    stays in the store. *)
Lemma retract_skips_later_teams :
  let alpha := "/keybase/team/alpha/kssh-client.config" in
  let beta := "/keybase/team/beta/kssh-client.config" in
  let E := sample_externals [OpKBFSDelete alpha] "yes" 2 in
  let conf := sample_config ["alpha"; "beta"] EmptyString EmptyString in
  let w := sample_world conf {[ alpha := "a"; beta := "b" ]} [] in
  let r := deleteClientConfig conf w in
  "beta" ∈ deleteClientConfig_teams conf
  /\ team_config_filename "beta" = beta
  /\ fst r = Some "unavailable"
  /\ events_since w (snd r) = [(OpKBFSDelete alpha, Some "unavailable")]
  /\ (beta ∉ deleted_paths (events_since w (snd r)))
  /\ kbfs (snd r) !! beta = Some "b".
Proof. cbv zeta. repeat split; compute_done. Qed.

Lemma retract_stops_at_first_failure_witness :
  let alpha := "/keybase/team/alpha/kssh-client.config" in
  let chat := "/keybase/team/chat/kssh-client.config" in
  let E := sample_externals [] "yes" 2 in
  let conf := sample_config ["alpha"] "chat" "general" in
  let w := sample_world conf {[ alpha := "a"; chat := "c" ]} [] in
  let r := deleteClientConfig conf w in
  (fst r = None
   /\ events_since w (snd r) = map delete_ok ["alpha"; "chat"]
   /\ forall team, team ∈ ["alpha"; "chat"] ->
        kbfs (snd r) !! team_config_filename team = None)
  \/ (exists pre team post e,
        ["alpha"; "chat"] = pre ++ team :: post
        /\ fst r = Some e
        /\ events_since w (snd r)
           = map delete_ok pre ++ [(OpKBFSDelete (team_config_filename team), Some e)]).
Proof.
  cbv zeta.
  exact (@retract_stops_at_first_failure (sample_externals [] "yes" 2)
           (sample_config ["alpha"] "chat" "general")
           (sample_world (sample_config ["alpha"] "chat" "general")
              {[ "/keybase/team/alpha/kssh-client.config" := "a";
                 "/keybase/team/chat/kssh-client.config" := "c" ]} [])).
Defined.

Example retract_deletes_every_team :
  let alpha := "/keybase/team/alpha/kssh-client.config" in
  let chat := "/keybase/team/chat/kssh-client.config" in
  let E := sample_externals [] "yes" 2 in
  let conf := sample_config ["alpha"] "chat" "general" in
  let r := deleteClientConfig conf (sample_world conf {[ alpha := "a"; chat := "c" ]} []) in
  fst r = None /\ kbfs (snd r) = ∅ /\ deleted_paths (trace (snd r)) = [alpha; chat].
Proof. cbv zeta. repeat split; compute_done. Qed.

(** C3 as stated fails: Publish succeeds for [alpha], [beta] and the
    chat team, then the deletion for [alpha] fails; Retract reports the
    error and all three entries are still in the store. *)
Lemma failed_retract_leaves_entries :
  let alpha := "/keybase/team/alpha/kssh-client.config" in
  let beta := "/keybase/team/beta/kssh-client.config" in
  let chat := "/keybase/team/chat/kssh-client.config" in
  let E := sample_externals [OpKBFSDelete alpha] "yes" 2 in
  let conf := sample_config ["alpha"; "beta"] "chat" "general" in
  let w := sample_world conf ∅ [] in
  let published := writeClientConfig conf w in
  let r := deleteClientConfig conf (snd published) in
  writeClientConfig_teams conf = ["alpha"; "beta"; "chat"]
  /\ fst published = None
  /\ written_paths (events_since w (snd published)) = [alpha; beta; chat]
  /\ fst r = Some "unavailable"
  /\ deleted_paths (events_since (snd published) (snd r)) = [alpha]
  /\ is_Some (kbfs (snd r) !! alpha)
  /\ is_Some (kbfs (snd r) !! beta)
  /\ is_Some (kbfs (snd r) !! chat).
Proof. cbv zeta. repeat split; compute_done. Qed.

Lemma publish_then_retract_witness :
  let E := sample_externals [] "yes" 2 in
  let conf := sample_config ["alpha"; "beta"] "chat" "general" in
  let w := sample_world conf ∅ [] in
  let w1 := snd (writeClientConfig conf w) in
  let r := deleteClientConfig conf w1 in
  fst r = None
  /\ is_Some (kbfs w1 !! team_config_filename "chat")
  /\ kbfs (snd r) !! team_config_filename "chat" = None.
Proof.
  cbv zeta. split; [compute_done|]. split; [compute_done|].
  apply (@publish_then_retract_leaves_nothing (sample_externals [] "yes" 2)
           (sample_config ["alpha"; "beta"] "chat" "general")
           (sample_world (sample_config ["alpha"; "beta"] "chat" "general") ∅ []));
    compute_done.
Defined.

Lemma publish_entry_fields_witness :
  let E := sample_externals [] "yes" 2 in
  let conf := sample_config ["alpha"] "chat" "general" in
  let w := sample_world conf ∅ [] in
  exists team,
    team ∈ ["alpha"; "chat"]
    /\ "/keybase/team/alpha/kssh-client.config" = team_config_filename team
    /\ false = false
    /\ json_Marshal (mkConfigFile "chat" "cabot" "general")
       = Ok "{teamname:chat,channelname:general,botname:cabot}".
Proof.
  cbv zeta.
  apply (proj1 (@publish_entry_fields (sample_externals [] "yes" 2)
                  (sample_config ["alpha"] "chat" "general")
                  (sample_world (sample_config ["alpha"] "chat" "general") ∅ []))
           "/keybase/team/alpha/kssh-client.config"
           "{teamname:chat,channelname:general,botname:cabot}" false None).
  compute_done.
Defined.

Example publish_without_override :
  let E := sample_externals [] "yes" 2 in
  let conf := sample_config ["alpha"; "beta"] EmptyString "ignored" in
  let r := writeClientConfig conf (sample_world conf ∅ []) in
  fst r = None
  /\ kbfs (snd r)
     = {[ "/keybase/team/alpha/kssh-client.config"
            := "{teamname:alpha,channelname:,botname:cabot}";
          "/keybase/team/beta/kssh-client.config"
            := "{teamname:beta,channelname:,botname:cabot}" ]}.
Proof. cbv zeta. split; compute_done. Qed.

Lemma publish_failure_modes_witness :
  let beta := "/keybase/team/beta/kssh-client.config" in
  let entry := "{teamname:beta,channelname:,botname:cabot}" in
  let E := sample_externals [OpKBFSWrite beta entry false] "yes" 2 in
  let conf := sample_config ["alpha"; "beta"; "gamma"] EmptyString EmptyString in
  let w := sample_world conf ∅ [] in
  let r := writeClientConfig conf w in
  fst r = Some "unavailable"
  /\ exists pre team post evs,
       writeClientConfig_teams conf = pre ++ team :: post
       /\ beta = team_config_filename team
       /\ Forall2 (written conf (bot_username w)) pre evs
       /\ events_since w (snd r)
          = (OpGetUsername conf, None)
            :: (evs ++ [(OpKBFSWrite beta entry false, Some "unavailable")])
       /\ written_paths (events_since w (snd r)) = map team_config_filename (pre ++ [team])
       /\ forall t, t ∈ pre -> is_Some (kbfs (snd r) !! team_config_filename t).
Proof.
  cbv zeta.
  apply (proj2 (@publish_failure_modes
                  (sample_externals
                     [OpKBFSWrite "/keybase/team/beta/kssh-client.config"
                                  "{teamname:beta,channelname:,botname:cabot}" false] "yes" 2)
                  (sample_config ["alpha"; "beta"; "gamma"] EmptyString EmptyString)
                  (sample_world (sample_config ["alpha"; "beta"; "gamma"] EmptyString EmptyString)
                                ∅ []))).
  compute_done.
Defined.

Example publish_stops_at_failed_write :
  let alpha := "/keybase/team/alpha/kssh-client.config" in
  let beta := "/keybase/team/beta/kssh-client.config" in
  let entry := "{teamname:beta,channelname:,botname:cabot}" in
  let E := sample_externals [OpKBFSWrite beta entry false] "yes" 2 in
  let conf := sample_config ["alpha"; "beta"; "gamma"] EmptyString EmptyString in
  let r := writeClientConfig conf (sample_world conf ∅ []) in
  fst r = Some "unavailable"
  /\ kbfs (snd r) = {[ alpha := "{teamname:alpha,channelname:,botname:cabot}" ]}
  /\ written_paths (trace (snd r)) = [alpha; beta].
Proof. cbv zeta. repeat split; compute_done. Qed.

(** C1.  The code at a failing input: one authorized team, the entry is
    published, the chat bot returns an error.  [serviceAction] returns
    the wrapped error; it made no deletion, and the published entry is
    still in the store when it returns. *)
Theorem service_bot_error_skips_retract :
  let alpha := "/keybase/team/alpha/kssh-client.config" in
  let conf := sample_config ["alpha"] EmptyString EmptyString in
  let E := sample_externals [OpStartBot conf] "yes" 2 in
  let w := sample_world conf ∅ [] in
  let r := serviceAction (sample_context false) w in
  fst r = Some "CA chatbot crashed: unavailable"
  /\ ops_of (trace (snd r))
     = [OpValidateConfig conf false; OpGetUsername conf;
        OpKBFSWrite alpha "{teamname:alpha,channelname:,botname:cabot}" false;
        OpSignalNotify conf; OpStartBot conf]
  /\ deleted_paths (trace (snd r)) = []
  /\ is_Some (kbfs (snd r) !! alpha).
Proof. cbv zeta. repeat split; compute_done. Qed.

(** The same input with a bot that stops without error: Retract runs. *)
Example service_clean_stop_retracts :
  let alpha := "/keybase/team/alpha/kssh-client.config" in
  let conf := sample_config ["alpha"] EmptyString EmptyString in
  let E := sample_externals [] "yes" 2 in
  let r := serviceAction (sample_context false) (sample_world conf ∅ []) in
  fst r = None /\ deleted_paths (trace (snd r)) = [alpha] /\ kbfs (snd r) !! alpha = None.
Proof. cbv zeta. repeat split; compute_done. Qed.

(** ** Sign and Backup *)

(** Bring the trace of a world built by [record] and [print] into the
    form [trace w ++ events] and read the events off. *)
Ltac read_events :=
  unfold events_since; simpl; rewrite <- ?app_assoc; simpl;
  rewrite ?drop_app_length; simpl.

Section SignBackupFacts.
Context `{E : Externals}.

(** C7.  [backupAction] asks before anything else.  It reads a file only
    when the scan succeeded and stored exactly [yes]; after a failed
    scan or any other token it returns an error and has read no file.
    After [yes] and a valid configuration the file it reads is the CA
    key. *)
Theorem backup_reads_key_only_after_yes (c : Context) (w : World) :
  let asked := snd (fmt_Println backup_prompt w) in
  let response := stdin_token asked in
  let scan_error := fault asked OpScanln in
  let r := backupAction c w in
  (exists rest, events_since w (snd r) = (OpScanln, scan_error) :: rest)
  /\ (forall p outcome,
        (OpReadFile p, outcome) ∈ events_since w (snd r) ->
        scan_error = None /\ response = "yes")
  /\ (scan_error <> None \/ response <> "yes" ->
      is_Some (fst r) /\ read_paths (events_since w (snd r)) = [])
  /\ (scan_error = None -> response = "yes" ->
      fault (snd (fmt_Scanln asked)) (OpValidateConfig (environ w) false) = None ->
      read_paths (events_since w (snd r)) = [GetCAKeyLocation (environ w)]).
Proof.
  cbv zeta. unfold backupAction. simpl.
  set (asked := print (backup_prompt +:+ nl) w).
  destruct (fault asked OpScanln) as [e|] eqn:Hscan.
  { simpl. read_events. split; [by eexists|]. split.
    - intros p outcome [[=]|[]%elem_of_nil]%elem_of_cons.
    - split; [by eauto|]. done. }
  destruct (decide (stdin_token asked <> "yes")) as [Hno|Hyes].
  { simpl. read_events. split; [by eexists|]. split.
    - intros p outcome [[=]|[]%elem_of_nil]%elem_of_cons.
    - split; [by eauto|]. intros _ Heq. by destruct Hno. }
  assert (Hresp : stdin_token asked = "yes").
  { destruct (decide (stdin_token asked = "yes")); [done|]. by destruct Hyes. }
  unfold loadServerConfig, config_ValidateConfig. simpl.
  destruct (fault (record OpScanln None asked) (OpValidateConfig (environ w) false))
    as [e|] eqn:Hval.
  { simpl. read_events. split; [by eexists|]. split; [done|]. split.
    - intros [?|?]; done.
    - done. }
  unfold ioutil_ReadFile. simpl.
  match goal with |- context [fault ?w0 (OpReadFile ?p)] =>
    destruct (fault w0 (OpReadFile p)) as [e|] eqn:Hread end.
  { simpl. read_events. split; [by eexists|]. split; [done|]. split.
    - intros [?|?]; done.
    - done. }
  destruct (disk w !! GetCAKeyLocation (environ w)) as [bytes|] eqn:Hkey.
  - simpl. read_events. split; [by eexists|]. split; [done|]. split.
    + intros [?|?]; done.
    + done.
  - simpl. read_events. split; [by eexists|]. split; [done|]. split.
    + intros [?|?]; done.
    + done.
Qed.

Lemma os_IsNotExist_spec (err : option error) :
  os_IsNotExist err
  = match err with
    | Some e => bool_decide (e = ErrNotExist)
    | None => false
    end.
Proof.
  unfold os_IsNotExist. destruct err as [e|].
  - apply bool_decide_ext. split; congruence.
  - by apply bool_decide_eq_false_2.
Qed.

(** C4, amended.  In a run of [signAction] that reports no error, on a
    public key file holding [pubKey]: the certificate is written to the
    derived path, replacing what was there, and only a line naming the
    path is printed, exactly when [os.Stat] on the derived path reports
    that no file exists there or [--overwrite] is given; otherwise
    nothing is written and the certificate is printed.  A [Stat] that
    does not itself fail reports that no file exists exactly when none
    is at the derived path; a [Stat] that fails reports it exactly when
    that is its error. *)
Theorem sign_output_policy (c : Context) (w : World) (pubKey : string) :
  let conf := environ w in
  let certPath := sign_certPath c in
  let w1 := record (OpValidateConfig conf true) None w in
  let w2 := record OpNewRandom None w1 in
  let w3 := record (OpReadFile (flag_public_key c)) None w2 in
  let signing :=
    OpSignKey (GetCAKeyLocation conf) (uuid_String w1 +:+ ":keybaseca-sign")
              (strings_Join (GetTeams conf) ",") (GetKeyExpiration conf) pubKey in
  let signature := ssh_signature w3 signing in
  let w4 := record signing None w3 in
  let not_exist := os_IsNotExist (fst (os_Stat certPath w4)) in
  let r := signAction c w in
  fst r = None ->
  disk w !! flag_public_key c = Some pubKey ->
  (not_exist || flag_overwrite c = true ->
     disk (snd r) = <[certPath := signature]> (disk w)
     /\ stdout (snd r) = stdout w ++ ["Provisioned new certificate in " +:+ certPath +:+ nl])
  /\ (not_exist || flag_overwrite c = false ->
      disk (snd r) = disk w
      /\ stdout (snd r)
         = stdout w ++ ["Provisioned new certificate. Place this in " +:+ certPath
                        +:+ " in order to use it with ssh." +:+ nl;
                        nl +:+ "```" +:+ nl +:+ signature +:+ "```" +:+ nl])
  /\ match fault w4 (OpStat certPath) with
     | None => not_exist = bool_decide (disk w !! certPath = None)
     | Some e => not_exist = bool_decide (e = ErrNotExist)
     end.
Proof.
  cbv zeta. unfold signAction, config_ValidateConfig, uuid_NewRandom.
  destruct (fault w (OpValidateConfig (environ w) true)) as [e|] eqn:Hval; [done|].
  match goal with |- context [fault ?w0 OpNewRandom] =>
    destruct (fault w0 OpNewRandom) as [e|] eqn:Hrand; [done|] end.
  unfold ioutil_ReadFile.
  match goal with |- context [fault ?w0 (OpReadFile ?p)] =>
    destruct (fault w0 (OpReadFile p)) as [e|] eqn:Hread; [done|] end.
  simpl. intros Hok Hpub. rewrite Hpub in Hok |- *.
  unfold sshutils_SignKey in Hok |- *.
  match goal with |- context [fault ?w0 (OpSignKey ?a ?b ?c0 ?d ?f)] =>
    destruct (fault w0 (OpSignKey a b c0 d f)) as [e|] eqn:Hsign; [done|] end.
  unfold os_Stat in Hok |- *. simpl in Hok |- *.
  match goal with |- context [fault ?w0 (OpStat ?p)] =>
    set (w4 := w0) in *; destruct (fault w4 (OpStat p)) as [e|] eqn:Hstat end;
    simpl in Hok |- *.
  all: match goal with
       | |- context [os_IsNotExist ?x || _] =>
           pose proof (os_IsNotExist_spec x) as Hreport; simpl in Hreport;
           destruct (os_IsNotExist x) eqn:Hne
       end;
    destruct (flag_overwrite c) eqn:Hover; simpl in Hok |- *;
    unfold ioutil_WriteFile, fmt_Printf in Hok |- *;
    repeat match goal with
           | H : context [fault ?w0 (OpWriteFile ?a ?b)] |- _ =>
               destruct (fault w0 (OpWriteFile a b)) as [e''|];
               [by destruct (bytes_written w0 (OpWriteFile a b))|]
           end;
    simpl.
  all: split; [first [done | by intros [=]]|];
    split; [first [by intros [=] | intros _; split; [done|]; by rewrite <- app_assoc]|].
  all: first [exact Hreport
             | by destruct (disk w !! sign_certPath c);
                 [rewrite bool_decide_eq_false_2|rewrite bool_decide_eq_true_2]].
Qed.

End SignBackupFacts.

(** C4 as stated fails: with no certificate at the derived path and no
    [--overwrite], [signAction] writes the certificate to the derived
    path and prints only the line naming it; afterwards the file exists. *)
Lemma sign_without_certificate_writes_it :
  let certPath := "/home/u/.ssh/id_ed25519-cert.pub" in
  let cert := "cert(6ba7b810-9dad-11d1-80b4-00c04fd430c8:keybaseca-sign;alpha,beta;ssh-ed25519 AAAA u@host)" in
  let E := sample_externals [] "yes" 2 in
  let c := sample_context false in
  let w := sample_world (sample_config ["alpha"; "beta"] EmptyString EmptyString) ∅ [] in
  let r := signAction c w in
  sign_certPath c = certPath
  /\ disk w !! certPath = None
  /\ flag_overwrite c = false
  /\ fst r = None
  /\ (OpWriteFile certPath cert, None) ∈ trace (snd r)
  /\ disk (snd r) !! certPath = Some cert
  /\ stdout (snd r) = ["Provisioned new certificate in " +:+ certPath +:+ nl].
Proof. cbv zeta. repeat split; compute_done. Qed.

Lemma sign_output_policy_witness :
  let certPath := "/home/u/.ssh/id_ed25519-cert.pub" in
  let cert := "cert(6ba7b810-9dad-11d1-80b4-00c04fd430c8:keybaseca-sign;alpha,beta;ssh-ed25519 AAAA u@host)" in
  let E := sample_externals [] "yes" 2 in
  let c := sample_context false in
  let w := sample_world (sample_config ["alpha"; "beta"] EmptyString EmptyString) ∅ [] in
  let w' := set_disk (insert certPath "an older certificate") w in
  (disk (snd (signAction c w)) = <[certPath := cert]> (disk w)
   /\ stdout (snd (signAction c w)) = ["Provisioned new certificate in " +:+ certPath +:+ nl])
  /\ (disk (snd (signAction c w')) = disk w'
      /\ stdout (snd (signAction c w'))
         = ["Provisioned new certificate. Place this in " +:+ certPath
            +:+ " in order to use it with ssh." +:+ nl;
            nl +:+ "```" +:+ nl +:+ cert +:+ "```" +:+ nl]).
Proof.
  cbv zeta. split.
  - refine (proj1 (@sign_output_policy (sample_externals [] "yes" 2) (sample_context false)
             (sample_world (sample_config ["alpha"; "beta"] EmptyString EmptyString) ∅ [])
             "ssh-ed25519 AAAA u@host" _ _) _);
      compute_done.
  - refine (proj1 (proj2 (@sign_output_policy (sample_externals [] "yes" 2)
             (sample_context false)
             (set_disk (insert "/home/u/.ssh/id_ed25519-cert.pub" "an older certificate")
                (sample_world (sample_config ["alpha"; "beta"] EmptyString EmptyString) ∅ []))
             "ssh-ed25519 AAAA u@host" _ _)) _);
      compute_done.
Defined.

(** When [os.Stat] fails with an error that is not the one for a missing
    file, [signAction] takes the file to exist: with no certificate at
    the derived path and no [--overwrite], nothing is written and the
    certificate is printed. *)
Example sign_prints_when_stat_fails :
  let certPath := "/home/u/.ssh/id_ed25519-cert.pub" in
  let cert := "cert(6ba7b810-9dad-11d1-80b4-00c04fd430c8:keybaseca-sign;alpha,beta;ssh-ed25519 AAAA u@host)" in
  let E := sample_externals [OpStat certPath] "yes" 2 in
  let c := sample_context false in
  let w := sample_world (sample_config ["alpha"; "beta"] EmptyString EmptyString) ∅ [] in
  let r := signAction c w in
  disk w !! certPath = None
  /\ fst r = None
  /\ disk (snd r) = disk w
  /\ last (trace (snd r)) = Some (OpStat certPath, Some "unavailable")
  /\ stdout (snd r)
     = ["Provisioned new certificate. Place this in " +:+ certPath
        +:+ " in order to use it with ssh." +:+ nl;
        nl +:+ "```" +:+ nl +:+ cert +:+ "```" +:+ nl].
Proof. cbv zeta. repeat split; compute_done. Qed.

(** A write of the certificate that fails after the file was opened:
    with [--overwrite] the older certificate is lost although [sign]
    returns an error. *)
Example sign_failed_write_truncates :
  let certPath := "/home/u/.ssh/id_ed25519-cert.pub" in
  let cert := "cert(6ba7b810-9dad-11d1-80b4-00c04fd430c8:keybaseca-sign;alpha,beta;ssh-ed25519 AAAA u@host)" in
  let E := sample_externals [OpWriteFile certPath cert] "yes" 2 in
  let c := sample_context true in
  let w := set_disk (insert certPath "an older certificate")
             (sample_world (sample_config ["alpha"; "beta"] EmptyString EmptyString) ∅ []) in
  let r := signAction c w in
  fst r = Some "Failed to write certificate to file: unavailable"
  /\ disk (snd r) !! certPath = Some EmptyString
  /\ stdout (snd r) = [].
Proof. cbv zeta. repeat split; compute_done. Qed.

Lemma backup_reads_key_only_after_yes_witness :
  let E := sample_externals [] "yes" 2 in
  let E' := sample_externals [] "no" 2 in
  let c := sample_context false in
  let w := sample_world (sample_config ["alpha"] EmptyString EmptyString) ∅ [] in
  read_paths (events_since w (snd (@backupAction E c w))) = ["/ca/keybase-ca-key"]
  /\ (is_Some (fst (@backupAction E' c w))
      /\ read_paths (events_since w (snd (@backupAction E' c w))) = []).
Proof.
  cbv zeta. split.
  - apply (@backup_reads_key_only_after_yes (sample_externals [] "yes" 2) (sample_context false)
             (sample_world (sample_config ["alpha"] EmptyString EmptyString) ∅ []));
      reflexivity.
  - apply (@backup_reads_key_only_after_yes (sample_externals [] "no" 2) (sample_context false)
             (sample_world (sample_config ["alpha"] EmptyString EmptyString) ∅ [])).
    right. discriminate.
Defined.

Example backup_prints_key_after_yes :
  let E := sample_externals [] "yes" 2 in
  let w := sample_world (sample_config ["alpha"] EmptyString EmptyString) ∅ [] in
  let r := backupAction (sample_context false) w in
  fst r = None /\ last (stdout (snd r)) = Some ("CA PRIVATE KEY" +:+ nl).
Proof. cbv zeta. split; compute_done. Qed.

(** ** The service, from start to stop *)

Section ServiceFacts.
Context `{E : Externals}.

Lemma loadServerConfig_cases (w : World) :
  let v := OpValidateConfig (environ w) false in
  (exists e, fault w v = Some e
     /\ loadServerConfig w
        = (Err ("Failed to validate config: " +:+ e), record v (Some e) w))
  \/ (fault w v = None /\ loadServerConfig w = (Ok (environ w), record v None w)).
Proof.
  cbv zeta. unfold loadServerConfig, config_ValidateConfig.
  destruct (fault w (OpValidateConfig (environ w) false)) as [e|]; eauto.
Qed.

(** The runs of Publish, by the events they add. *)
Lemma writeClientConfig_runs (conf : Config) (w : World) :
  let r := writeClientConfig conf w in
  let u := bot_username w in
  (exists e, fst r = Some e
     /\ trace (snd r) = trace w ++ [(OpGetUsername conf, Some e)]
     /\ kbfs (snd r) = kbfs w)
  \/ (exists wrote,
        fst r = None /\ Forall2 (written conf u) (writeClientConfig_teams conf) wrote
        /\ trace (snd r) = trace w ++ (OpGetUsername conf, None) :: wrote)
  \/ (exists e pre team post wrote failed,
        fst r = Some e /\ writeClientConfig_teams conf = pre ++ team :: post
        /\ Forall2 (written conf u) pre wrote
        /\ (forall t, t ∈ pre -> is_Some (kbfs (snd r) !! team_config_filename t))
        /\ trace (snd r) = trace w ++ (OpGetUsername conf, None) :: wrote ++ failed
        /\ (failed = []
            \/ exists content,
                 failed = [(OpKBFSWrite (team_config_filename team) content false, Some e)])).
Proof.
  cbv zeta. unfold writeClientConfig, bot_GetUsername, logrus_Debugf.
  destruct (fault w (OpGetUsername conf)) as [e|] eqn:Hf.
  { left. by exists e. }
  right.
  destruct (writeClientConfig_loop conf (bot_username w) (writeClientConfig_teams conf)
              (record (OpGetUsername conf) None w)) as [err w1] eqn:Hloop.
  destruct (writeClientConfig_loop_spec _ _ _ _ _ _ Hloop)
    as [(evs & -> & Hall & Htr & Hin)
       | (pre & team & post & evs & e & Hteams & -> & Hall & Hin & Hlast)].
  - left. exists evs. simpl. repeat split; [done|].
    rewrite Htr, trace_record. by rewrite <- app_assoc.
  - right. destruct Hlast as [[Hj Htr] | (content & Hj & Htr)].
    + exists e, pre, team, post, evs, []. simpl. repeat split; [done|done|done| |by left].
      rewrite Htr, trace_record, app_nil_r. by rewrite <- app_assoc.
    + exists e, pre, team, post, evs,
        [(OpKBFSWrite (team_config_filename team) content false, Some e)].
      simpl. repeat split; [done|done|done| |right; by exists content].
      rewrite Htr, trace_record. by rewrite <- !app_assoc.
Qed.

(** The runs of [serviceAction]: validation fails; or Publish fails; or
    the bot was started on the fully published entries, and either it
    returned an error, or it stopped and Retract ran. *)
Lemma serviceAction_runs (c : Context) (w : World) :
  let conf := environ w in
  let v := (OpValidateConfig conf false, None) : Event in
  let u := bot_username (record (OpValidateConfig conf false) None w) in
  let res := serviceAction c w in
  let evs := events_since w (snd res) in
  (exists e, fst res = Some ("Failed to validate config: " +:+ e)
     /\ evs = [(OpValidateConfig conf false, Some e)] /\ kbfs (snd res) = kbfs w)
  \/ (exists e pevs,
        fst res = Some ("Failed to write the client config: " +:+ e)
        /\ evs = v :: pevs
        /\ (forall ev, ev ∈ pevs ->
              (exists r, ev = (OpGetUsername conf, r))
              \/ (exists p content r, ev = (OpKBFSWrite p content false, r)
                    /\ (r = None -> is_Some (kbfs (snd res) !! p)))))
  \/ (exists wrote r rest,
        Forall2 (written conf u) (writeClientConfig_teams conf) wrote
        /\ evs = v :: (OpGetUsername conf, None) :: wrote
                 ++ (OpSignalNotify conf, None) :: (OpStartBot conf, r) :: rest
        /\ ((exists e, r = Some e /\ rest = []
               /\ fst res = Some ("CA chatbot crashed: " +:+ e))
            \/ (r = None /\ fst res = None
                /\ rest = map delete_ok (deleteClientConfig_teams conf)
                /\ forall team, team ∈ deleteClientConfig_teams conf ->
                     kbfs (snd res) !! team_config_filename team = None)
            \/ (exists pre team post e,
                  r = None /\ fst res = Some e
                  /\ deleteClientConfig_teams conf = pre ++ team :: post
                  /\ rest = map delete_ok pre
                            ++ [(OpKBFSDelete (team_config_filename team), Some e)]))).
Proof.
  cbv zeta. unfold serviceAction, loadServerConfigAndWriteClientConfig.
  destruct (loadServerConfig_cases w) as [(e & Hf & ->) | [Hf ->]].
  { left. exists e. simpl. repeat split. by apply events_since_app. }
  right.
  set (conf := environ w).
  set (w0 := record (OpValidateConfig conf false) None w).
  pose proof (writeClientConfig_runs conf w0) as Hpub. cbv zeta in Hpub.
  destruct (writeClientConfig conf w0) as [err w1] eqn:Hrun. simpl in Hpub.
  destruct Hpub as [(e & -> & Htr & Hk)
                   | [(wrote & -> & Hall & Htr)
                     | (e & pre & team & post & wrote & failed & -> & Hteams & Hall & Hin
                        & Htr & Hfailed)]].
  - left. exists e, [(OpGetUsername conf, Some e)]. simpl. repeat split.
    + apply events_since_app. rewrite Htr. by rewrite <- app_assoc.
    + intros ev ->%list_elem_of_singleton. left. by eexists.
  - right.
    unfold captureControlCToDeleteClientConfig, bot_StartBot.
    set (w2 := record (OpSignalNotify conf) None w1).
    assert (Htr2 : trace w2 = trace w ++ (OpValidateConfig conf false, None)
                              :: (OpGetUsername conf, None) :: wrote
                              ++ [(OpSignalNotify conf, None)]).
    { unfold w2. rewrite trace_record, Htr. rewrite <- !app_assoc. done. }
    destruct (fault w2 (OpStartBot conf)) as [e|] eqn:Hbot.
    + exists wrote, (Some e), []. split; [done|]. split.
      * simpl. apply events_since_app. rewrite trace_record, Htr2.
        rewrite <- !app_assoc. simpl. by rewrite <- app_assoc.
      * left. by exists e.
    + set (w3 := record (OpStartBot conf) None w2).
      assert (Htr3 : trace w3 = trace w ++ (OpValidateConfig conf false, None)
                                :: (OpGetUsername conf, None) :: wrote
                                ++ [(OpSignalNotify conf, None); (OpStartBot conf, None)]).
      { unfold w3. rewrite trace_record, Htr2. rewrite <- !app_assoc. simpl.
        by rewrite <- app_assoc. }
      rewrite deleteClientConfig_unfold.
      destruct (deleteClientConfig_loop (deleteClientConfig_teams conf) w3)
        as [err w4] eqn:Hdel.
      pose proof Hdel as Hdel0.
      apply deleteClientConfig_loop_spec in Hdel
        as [[-> Htr4] | (pre & team & post & e & Hdt & -> & Htr4)].
      * exists wrote, None, (map delete_ok (deleteClientConfig_teams conf)).
        split; [done|]. split.
        -- simpl. apply events_since_app. rewrite Htr4, Htr3.
           rewrite <- !app_assoc. simpl. by rewrite <- !app_assoc.
        -- right. left. repeat split. intros team Hteam.
           by eapply deleteClientConfig_loop_removes.
      * exists wrote, None,
          (map delete_ok pre ++ [(OpKBFSDelete (team_config_filename team), Some e)]).
        split; [done|]. split.
        -- simpl. apply events_since_app. rewrite Htr4, Htr3.
           rewrite <- !app_assoc. simpl. by rewrite <- !app_assoc.
        -- right. right. by exists pre, team, post, e.
  - left. exists e, ((OpGetUsername conf, None) :: wrote ++ failed). simpl. repeat split.
    + apply events_since_app. rewrite Htr. by rewrite <- app_assoc.
    + intros ev [-> |[Hev|Hev]%elem_of_app]%elem_of_cons.
      * left. by eexists.
      * right. destruct (written_in _ _ _ _ _ Hall Hev) as (t & Ht & content & _ & ->).
        exists (team_config_filename t), content, None. split; [done|]. intros _. by apply Hin.
      * right. destruct Hfailed as [-> |[content ->]]; [by apply elem_of_nil in Hev|].
        apply list_elem_of_singleton in Hev as ->.
        exists (team_config_filename team), content, (Some e). done.
Qed.

Lemma deleted_paths_none (evs : list Event) :
  (forall ev p, ev ∈ evs -> fst ev <> OpKBFSDelete p) -> deleted_paths evs = [].
Proof.
  induction evs as [|[op r] evs IH]; intros Hnone; [done|]. simpl.
  rewrite IH; [|intros ev p Hev; apply Hnone; by right].
  destruct op; try done. exfalso. eapply (Hnone _ filename); [by left|done].
Qed.

Lemma deleteClientConfig_loop_stdout (teams : list string) (w w' : World)
    (err : option error) :
  deleteClientConfig_loop teams w = (err, w') -> stdout w' = stdout w.
Proof.
  revert w. induction teams as [|team rest IH]; intros w Hrun; simpl in Hrun.
  - by injection Hrun as <- <-.
  - destruct (KBFSDelete (team_config_filename team) w) as [[e|] w1] eqn:Hdel.
    + injection Hrun as <- <-. by apply KBFSDelete_err in Hdel as [_ ->].
    + apply KBFSDelete_ok in Hdel as [_ ->]. by rewrite (IH _ Hrun).
Qed.

(** X1.  [serviceAction] starts the chat bot only on a fully published
    configuration: if [bot.StartBot] was called in a run, then before it
    the validation and the resolution of the bot account succeeded, the
    entry of every team of the list was written, in order and with
    success, and the signal handler was registered just before; after
    it, the run makes deletions only. *)
Theorem service_bot_started_after_publish (c : Context) (w : World) (r : option error) :
  let conf := environ w in
  let evs := events_since w (snd (serviceAction c w)) in
  (OpStartBot conf, r) ∈ evs ->
  exists wrote rest,
    evs = (OpValidateConfig conf false, None) :: (OpGetUsername conf, None) :: wrote
          ++ (OpSignalNotify conf, None) :: (OpStartBot conf, r) :: rest
    /\ written_paths wrote = map team_config_filename (writeClientConfig_teams conf)
    /\ Forall (fun ev => snd ev = None) wrote
    /\ Forall (fun ev => exists p, fst ev = OpKBFSDelete p) rest.
Proof.
  cbv zeta. intros Hbot.
  destruct (serviceAction_runs c w)
    as [(e & _ & Hevs & _) | [(e & pevs & _ & Hevs & Hpevs)
                             | (wrote & r' & rest & Hall & Hevs & Hrest)]];
    rewrite Hevs in Hbot |- *.
  - by apply list_elem_of_singleton in Hbot.
  - apply elem_of_cons in Hbot as [?|Hbot]; [done|].
    by destruct (Hpevs _ Hbot) as [[? ?] | (? & ? & ? & ? & _)].
  - assert (Hwrote : forall ev, ev ∈ wrote -> exists p content,
                       ev = (OpKBFSWrite p content false, None)).
    { intros ev Hev. destruct (written_in _ _ _ _ _ Hall Hev) as (t & _ & content & _ & ->).
      by eexists _, _. }
    assert (Hdels : Forall (fun ev : Event => exists p, fst ev = OpKBFSDelete p) rest).
    { destruct Hrest as [(e & _ & -> & _) | [(_ & _ & -> & _)
                        | (pre & team & post & e & _ & _ & _ & ->)]].
      - constructor.
      - apply Forall_forall. intros ev (t & -> & _)%list_elem_of_fmap. by eexists.
      - apply Forall_app. split.
        + apply Forall_forall. intros ev (t & -> & _)%list_elem_of_fmap. by eexists.
        + repeat constructor. by eexists. }
    assert (r = r') as <-.
    { apply elem_of_cons in Hbot as [?|Hbot]; [done|].
      apply elem_of_cons in Hbot as [?|Hbot]; [done|].
      apply elem_of_app in Hbot as [Hbot|Hbot].
      { by destruct (Hwrote _ Hbot) as (? & ? & ?). }
      apply elem_of_cons in Hbot as [?|Hbot]; [done|].
      apply elem_of_cons in Hbot as [?|Hbot]; [congruence|].
      rewrite Forall_forall in Hdels. destruct (Hdels _ Hbot) as [p Hp]. done. }
    exists wrote, rest. split; [done|]. split; [by eapply written_paths_written|].
    split; [|done]. apply Forall_forall. intros ev Hev.
    by destruct (Hwrote _ Hev) as (? & ? & ->).
Qed.

(** X2.  A start of the service that fails is not rolled back: in a run
    of [serviceAction] in which the chat bot was not started, an error
    is returned, no signal handler was registered and nothing was
    deleted, so every entry Publish wrote before it failed is still in
    the store. *)
Theorem service_failed_start_keeps_entries (c : Context) (w : World) :
  let conf := environ w in
  let res := serviceAction c w in
  let evs := events_since w (snd res) in
  OpStartBot conf ∉ ops_of evs ->
  is_Some (fst res)
  /\ (OpSignalNotify conf ∉ ops_of evs)
  /\ deleted_paths evs = []
  /\ forall p content,
       (OpKBFSWrite p content false, None) ∈ evs -> is_Some (kbfs (snd res) !! p).
Proof.
  cbv zeta. intros Hnobot.
  destruct (serviceAction_runs c w)
    as [(e & Hres & Hevs & _) | [(e & pevs & Hres & Hevs & Hpevs)
                                | (wrote & r' & rest & Hall & Hevs & Hrest)]];
    rewrite Hevs in Hnobot |- *.
  - rewrite Hres. split; [by eexists|]. split.
    { by intros ?%list_elem_of_singleton. }
    split; [done|]. by intros p content ?%list_elem_of_singleton.
  - rewrite Hres. split; [by eexists|]. split.
    { unfold ops_of. intros [?|(ev & Hop & Hev)%list_elem_of_fmap]%elem_of_cons; [done|].
      by destruct (Hpevs _ Hev) as [[? ->] | (? & ? & ? & -> & _)]. }
    split.
    { apply deleted_paths_none. intros ev p [-> |Hev]%elem_of_cons; [done|].
      by destruct (Hpevs _ Hev) as [[? ->] | (? & ? & ? & -> & _)]. }
    intros p content [?|Hev]%elem_of_cons; [done|].
    destruct (Hpevs _ Hev) as [[? ?] | (p' & content' & r & [= -> -> <-] & Hin)]; [done|].
    by apply Hin.
  - exfalso. apply Hnobot. unfold ops_of. simpl. right. right.
    rewrite fmap_app. apply elem_of_app. right. simpl. right. by left.
Qed.

(** X3.  A run of [serviceAction] that reports no error made exactly
    these calls, all with success and in this order: the validation of
    the configuration, the resolution of the bot account, one write per
    team of the list, the registration of the signal handler, the chat
    bot, and one deletion per team of the list; afterwards no team of
    the list has an entry in the store. *)
Theorem service_clean_run (c : Context) (w : World) :
  let conf := environ w in
  let res := serviceAction c w in
  let u := bot_username (record (OpValidateConfig conf false) None w) in
  fst res = None ->
  (exists wrote,
     Forall2 (written conf u) (writeClientConfig_teams conf) wrote
     /\ events_since w (snd res)
        = (OpValidateConfig conf false, None) :: (OpGetUsername conf, None) :: wrote
          ++ (OpSignalNotify conf, None) :: (OpStartBot conf, None)
          :: map delete_ok (deleteClientConfig_teams conf))
  /\ forall team, team ∈ writeClientConfig_teams conf ->
       kbfs (snd res) !! team_config_filename team = None.
Proof.
  cbv zeta. intros Hnone.
  destruct (serviceAction_runs c w)
    as [(e & Hres & _) | [(e & pevs & Hres & _)
                         | (wrote & r' & rest & Hall & Hevs & Hrest)]];
    [congruence|congruence|].
  destruct Hrest as [(e & _ & _ & Hres) | [(-> & _ & -> & Hgone)
                    | (pre & team & post & e & -> & Hres & _)]];
    [congruence| |congruence].
  split; [by exists wrote|]. exact Hgone.
Qed.

(** X4.  The signal handler prints its notice, runs Retract and ends
    the process: with status 0 when Retract reported no error, and then
    every team of the list was deleted, in order, and no team of the
    list has an entry left; with status 1 when a deletion failed, and
    then the teams after the failing one were not attempted and the
    failure is the last thing printed. *)
Theorem signal_handler_exit_status (conf : Config) (w : World) :
  let res := captureControlC_handler conf w in
  let evs := events_since w (snd res) in
  let notice := "losing CA bot..." +:+ nl in
  (fst res = 0
   /\ evs = map delete_ok (deleteClientConfig_teams conf)
   /\ stdout (snd res) = stdout w ++ [notice]
   /\ forall team, team ∈ deleteClientConfig_teams conf ->
        kbfs (snd res) !! team_config_filename team = None)
  \/ (fst res = 1
      /\ exists pre team post e,
           deleteClientConfig_teams conf = pre ++ team :: post
           /\ evs = map delete_ok pre ++ [(OpKBFSDelete (team_config_filename team), Some e)]
           /\ stdout (snd res)
              = stdout w ++ [notice; "Failed to delete client config: " +:+ e]).
Proof.
  cbv zeta. unfold captureControlC_handler, fmt_Println, fmt_Printf.
  rewrite deleteClientConfig_unfold.
  set (w1 := print ("losing CA bot..." +:+ nl) w).
  destruct (deleteClientConfig_loop (deleteClientConfig_teams conf) w1)
    as [err w2] eqn:Hdel.
  pose proof (deleteClientConfig_loop_stdout _ _ _ _ Hdel) as Hout.
  pose proof Hdel as Hdel0.
  apply deleteClientConfig_loop_spec in Hdel
    as [[-> Htr] | (pre & team & post & e & Hteams & -> & Htr)].
  - left. simpl. split; [done|]. split; [by apply events_since_app|].
    split; [done|]. intros team Hteam. by eapply deleteClientConfig_loop_removes.
  - right. simpl. split; [done|]. exists pre, team, post, e.
    split; [done|]. split; [by apply events_since_app|].
    rewrite Hout. simpl. by rewrite <- app_assoc.
Qed.

End ServiceFacts.

(** *** The service on explicit inputs *)

Lemma service_bot_started_after_publish_witness :
  let E := sample_externals [] "yes" 2 in
  let conf := sample_config ["alpha"; "beta"] EmptyString EmptyString in
  let w := sample_world conf ∅ [] in
  let evs := events_since w (snd (serviceAction (sample_context false) w)) in
  (OpStartBot conf, None) ∈ evs
  /\ exists wrote rest,
       evs = (OpValidateConfig conf false, None) :: (OpGetUsername conf, None) :: wrote
             ++ (OpSignalNotify conf, None) :: (OpStartBot conf, None) :: rest
       /\ written_paths wrote = map team_config_filename (writeClientConfig_teams conf)
       /\ Forall (fun ev => snd ev = None) wrote
       /\ Forall (fun ev => exists p, fst ev = OpKBFSDelete p) rest.
Proof.
  cbv zeta. split; [compute_done|].
  apply (@service_bot_started_after_publish (sample_externals [] "yes" 2)
           (sample_context false)
           (sample_world (sample_config ["alpha"; "beta"] EmptyString EmptyString) ∅ [])
           None).
  compute_done.
Defined.

(** The write for [beta] fails: the service does not start, and the
    entry written for [alpha] stays in the store. *)
Lemma service_failed_start_keeps_entries_witness :
  let alpha := "/keybase/team/alpha/kssh-client.config" in
  let beta := "/keybase/team/beta/kssh-client.config" in
  let entry := sample_json (mkConfigFile "beta" "cabot" EmptyString) in
  let E := sample_externals [OpKBFSWrite beta entry false] "yes" 2 in
  let conf := sample_config ["alpha"; "beta"] EmptyString EmptyString in
  let w := sample_world conf ∅ [] in
  let res := serviceAction (sample_context false) w in
  let evs := events_since w (snd res) in
  (fst res = Some "Failed to write the client config: unavailable"
   /\ is_Some (kbfs (snd res) !! alpha))
  /\ (is_Some (fst res)
      /\ (OpSignalNotify conf ∉ ops_of evs)
      /\ deleted_paths evs = []
      /\ forall p content,
           (OpKBFSWrite p content false, None) ∈ evs -> is_Some (kbfs (snd res) !! p)).
Proof.
  cbv zeta. split; [split; compute_done|].
  apply (@service_failed_start_keeps_entries
           (sample_externals
              [OpKBFSWrite "/keybase/team/beta/kssh-client.config"
                 (sample_json (mkConfigFile "beta" "cabot" EmptyString)) false] "yes" 2)
           (sample_context false)
           (sample_world (sample_config ["alpha"; "beta"] EmptyString EmptyString) ∅ [])).
  compute_done.
Defined.

Lemma service_clean_run_witness :
  let E := sample_externals [] "yes" 2 in
  let conf := sample_config ["alpha"] "chat" "general" in
  let w := sample_world conf ∅ [] in
  let res := serviceAction (sample_context false) w in
  (exists wrote,
     Forall2 (written conf "cabot") ["alpha"; "chat"] wrote
     /\ events_since w (snd res)
        = (OpValidateConfig conf false, None) :: (OpGetUsername conf, None) :: wrote
          ++ (OpSignalNotify conf, None) :: (OpStartBot conf, None)
          :: map delete_ok ["alpha"; "chat"])
  /\ forall team, team ∈ ["alpha"; "chat"] ->
       kbfs (snd res) !! team_config_filename team = None.
Proof.
  cbv zeta.
  apply (@service_clean_run (sample_externals [] "yes" 2) (sample_context false)
           (sample_world (sample_config ["alpha"] "chat" "general") ∅ [])).
  reflexivity.
Defined.

(** A signal while the entries of [alpha] and [beta] are published:
    both are deleted and the status is 0; when the deletion for [beta]
    fails the status is 1 and the failure is printed. *)
Example signal_handler_on_published_entries :
  let beta := "/keybase/team/beta/kssh-client.config" in
  let E := sample_externals [] "yes" 2 in
  let E' := sample_externals [OpKBFSDelete beta] "yes" 2 in
  let conf := sample_config ["alpha"; "beta"] EmptyString EmptyString in
  let w := snd (@writeClientConfig E conf (sample_world conf ∅ [])) in
  (fst (@captureControlC_handler E conf w) = 0
   /\ kbfs (snd (@captureControlC_handler E conf w)) = ∅)
  /\ (fst (@captureControlC_handler E' conf w) = 1
      /\ is_Some (kbfs (snd (@captureControlC_handler E' conf w)) !! beta)
      /\ stdout (snd (@captureControlC_handler E' conf w))
         = ["losing CA bot..." +:+ nl; "Failed to delete client config: unavailable"]).
Proof. cbv zeta. repeat split; compute_done. Qed.

(** ** Sign, Backup and the log file *)

Section LocalFacts.
Context `{E : Externals}.

(** X5.  [signAction] never changes the Team Directory Store, and a run
    that returns an error has printed nothing.  Such a run has left the
    disk as it was, unless the error is that of the write of the
    certificate, the last call of the run: then the disk is as it was
    or differs in the file at the derived path only, which holds an
    initial part of the certificate. *)
Theorem sign_failure_prints_nothing (c : Context) (w : World) :
  let res := signAction c w in
  kbfs (snd res) = kbfs w
  /\ (is_Some (fst res) ->
      stdout (snd res) = stdout w
      /\ (disk (snd res) = disk w
          \/ exists e n cert,
               fst res = Some ("Failed to write certificate to file: " +:+ e)
               /\ last (trace (snd res)) = Some (OpWriteFile (sign_certPath c) cert, Some e)
               /\ disk (snd res) = <[sign_certPath c := substring 0 n cert]> (disk w))).
Proof.
  cbv zeta.
  unfold signAction, config_ValidateConfig, uuid_NewRandom, ioutil_ReadFile,
    sshutils_SignKey, os_Stat, ioutil_WriteFile, fmt_Printf.
  repeat (case_match; simplify_eq/=); (split; [done|]); try by intros [? [=]].
  all: intros _; split; [done|]; try by left.
  all: right; eexists _, _, _; split; [done|]; split; [by rewrite last_snoc|done].
Qed.

(** X6.  [signAction] works without Keybase: the calls of a run are an
    initial part of this sequence, in this order: the offline validation
    of the configuration, the draw of a UUID, the read of the public key
    file, the signing (with the CA key location, the UUID followed by
    [:keybaseca-sign] as key ID, the authorized teams joined by commas
    as principals, the configured expiration and the bytes read), the
    [Stat] of the derived certificate path, and the write of the
    certificate there.  So it never calls the Team Directory Store or
    the bot, reads no file but the public key, and writes no file but
    the certificate. *)
Theorem sign_calls (c : Context) (w : World) :
  let conf := environ w in
  let w1 := record (OpValidateConfig conf true) None w in
  let w3 := record (OpReadFile (flag_public_key c)) None (record OpNewRandom None w1) in
  let signing :=
    OpSignKey (GetCAKeyLocation conf) (uuid_String w1 +:+ ":keybaseca-sign")
              (strings_Join (GetTeams conf) ",") (GetKeyExpiration conf)
              (default EmptyString (disk w !! flag_public_key c)) in
  ops_of (events_since w (snd (signAction c w)))
  `prefix_of` [OpValidateConfig conf true; OpNewRandom; OpReadFile (flag_public_key c);
               signing; OpStat (sign_certPath c);
               OpWriteFile (sign_certPath c) (ssh_signature w3 signing)].
Proof.
  cbv zeta.
  unfold signAction, config_ValidateConfig, uuid_NewRandom, ioutil_ReadFile,
    sshutils_SignKey, os_Stat, ioutil_WriteFile, fmt_Printf.
  repeat (case_match; simplify_eq/=); read_events;
    repeat first [apply prefix_nil | apply prefix_cons].
Qed.

(** X7.  A run of [backupAction] that returns an error changes neither
    the disk nor the Team Directory Store and has printed nothing but
    the question, so no key material reaches the output.  A run that
    returns no error made [klog.Log] its last call; it printed the
    question first and the warning, an empty line and the bytes of the
    file at the CA key location last, with between them only what
    [klog.Log] printed; and it changed no file but the CA log at the
    log location, in the store or on the disk by its path. *)
Theorem backup_output (c : Context) (w : World) :
  let conf := environ w in
  let logLocation := GetLogLocation conf in
  let res := backupAction c w in
  let question := backup_prompt +:+ nl in
  let warning := nl +:+ "Keep this key somewhere very safe. We recommend keeping a physical copy of it in a secure place." +:+ nl in
  match fst res with
  | Some _ =>
      disk (snd res) = disk w /\ kbfs (snd res) = kbfs w
      /\ stdout (snd res) = stdout w ++ [question]
  | None =>
      exists key logged,
        disk w !! GetCAKeyLocation conf = Some key
        /\ stdout (snd res) = stdout w ++ question :: logged ++ [warning; nl; key +:+ nl]
        /\ last (trace (snd res)) = Some (OpLog conf "Exported CA key to stdout", None)
        /\ (forall p, p <> logLocation ->
              disk (snd res) !! p = disk w !! p /\ kbfs (snd res) !! p = kbfs w !! p)
        /\ (if strings_HasPrefix logLocation "/keybase/"
            then disk (snd res) = disk w
            else kbfs (snd res) = kbfs w)
  end.
Proof.
  cbv zeta. unfold backupAction. simpl.
  set (asked := print (backup_prompt +:+ nl) w).
  destruct (fault asked OpScanln) as [e|] eqn:Hscan; [done|].
  destruct (decide (stdin_token asked <> "yes")) as [Hno|Hyes]; [done|].
  unfold loadServerConfig, config_ValidateConfig. simpl.
  destruct (fault (record OpScanln None asked) (OpValidateConfig (environ w) false))
    as [e|] eqn:Hval; [done|].
  unfold ioutil_ReadFile. simpl.
  match goal with |- context [fault ?w0 (OpReadFile ?p)] =>
    destruct (fault w0 (OpReadFile p)) as [e|] eqn:Hread; [done|] end.
  destruct (disk w !! GetCAKeyLocation (environ w)) as [key|] eqn:Hkey; [|done].
  simpl. exists key.
  match goal with |- context [log_print ?w0 ?op] => exists (log_print w0 op) end.
  split; [done|].
  split; [by rewrite <- !app_assoc|]. split; [by rewrite last_snoc|].
  destruct (strings_HasPrefix (GetLogLocation (environ w)) "/keybase/");
    match goal with |- context [log_line ?w0 ?op] => destruct (log_line w0 op) end;
    (split; [|done]); intros p Hp; by rewrite ?lookup_insert_ne.
Qed.

(** X8.  The [wipe-logs] case of [mainAction] removes the log file from
    exactly one place: from the Team Directory Store when the log
    location starts with [/keybase/], from the local disk otherwise,
    where the file must exist.  A run that returns no error removed it
    there, changed nothing else and printed the confirmation; a run that
    returns an error changed and printed nothing. *)
Theorem wipe_logs_effect (w : World) :
  let loc := GetLogLocation (environ w) in
  let res := mainAction_wipe_logs w in
  match fst res with
  | None =>
      (if strings_HasPrefix loc "/keybase/"
       then kbfs (snd res) = delete loc (kbfs w) /\ disk (snd res) = disk w
       else disk (snd res) = delete loc (disk w) /\ is_Some (disk w !! loc)
            /\ kbfs (snd res) = kbfs w)
      /\ stdout (snd res) = stdout w ++ ["Wiped existing log file at " +:+ loc +:+ nl]
  | Some e =>
      kbfs (snd res) = kbfs w /\ disk (snd res) = disk w /\ stdout (snd res) = stdout w
      /\ exists cause,
           e = "Failed to validate config: " +:+ cause
           \/ e = "Failed to delete log file at " +:+ loc +:+ ": " +:+ cause
  end.
Proof.
  cbv zeta.
  unfold mainAction_wipe_logs, loadServerConfig, config_ValidateConfig, KBFSDelete,
    os_Remove, fmt_Println.
  repeat (case_match; simplify_eq/=); repeat split; try done; eauto.
Qed.

End LocalFacts.

(** The export is logged: a run of [backup] with the log on the local
    disk adds a line to it and leaves the store alone. *)
Example backup_logs_the_export :
  let E := sample_externals [] "yes" 2 in
  let w := sample_world (sample_config ["alpha"] EmptyString EmptyString) ∅ [] in
  let r := backupAction (sample_context false) w in
  fst r = None
  /\ disk w !! "/ca/ca.log" = None
  /\ disk (snd r) !! "/ca/ca.log"
     = Some ("[2019-09-01 12:00:00] Exported CA key to stdout" +:+ nl)
  /\ kbfs (snd r) = kbfs w.
Proof. cbv zeta. repeat split; compute_done. Qed.

(** ** What Publish and Retract leave alone *)

Section FrameFacts.
Context `{E : Externals}.

Lemma writeClientConfig_loop_frame (conf : Config) (username : string)
    (teams : list string) (w w' : World) (err : option error) :
  writeClientConfig_loop conf username teams w = (err, w') ->
  disk w' = disk w /\ stdout w' = stdout w
  /\ forall p, p ∉ map team_config_filename teams -> kbfs w' !! p = kbfs w !! p.
Proof.
  revert w. induction teams as [|team rest IH]; intros w Hrun; simpl in Hrun.
  - by injection Hrun as <- <-.
  - destruct (json_Marshal (writeClientConfig_entry conf username team)) as [content|e].
    2:{ by injection Hrun as <- <-. }
    destruct (KBFSWrite (team_config_filename team) content false w)
      as [[e|] w1] eqn:Hwr.
    + injection Hrun as <- <-. by apply KBFSWrite_err in Hwr as [_ ->].
    + apply KBFSWrite_ok in Hwr as [_ ->].
      destruct (IH _ Hrun) as (Hdisk & Hout & Hframe).
      split; [done|]. split; [done|]. intros p Hp. simpl in Hp.
      apply not_elem_of_cons in Hp as [Hne Hp].
      rewrite (Hframe p Hp). simpl. by rewrite lookup_insert_ne.
Qed.

Lemma deleteClientConfig_loop_frame (teams : list string) (w w' : World)
    (err : option error) :
  deleteClientConfig_loop teams w = (err, w') ->
  disk w' = disk w /\ kbfs w' ⊆ kbfs w
  /\ forall p, p ∉ map team_config_filename teams -> kbfs w' !! p = kbfs w !! p.
Proof.
  revert w. induction teams as [|team rest IH]; intros w Hrun; simpl in Hrun.
  - by injection Hrun as <- <-.
  - destruct (KBFSDelete (team_config_filename team) w) as [[e|] w1] eqn:Hdel.
    + injection Hrun as <- <-. by apply KBFSDelete_err in Hdel as [_ ->].
    + apply KBFSDelete_ok in Hdel as [_ ->].
      destruct (IH _ Hrun) as (Hdisk & Hsub & Hframe).
      split; [done|]. split.
      { etrans; [exact Hsub|]. simpl. apply delete_subseteq. }
      intros p Hp. simpl in Hp. apply not_elem_of_cons in Hp as [Hne Hp].
      rewrite (Hframe p Hp). simpl. by rewrite lookup_delete_ne.
Qed.

(** X9.  Publish and Retract touch the Team Directory Store only at
    the config paths of the teams of their list, and never the local
    disk: every other file of the store is as it was.  Publish removes
    no file; Retract adds none and changes the contents of none. *)
Theorem publish_retract_frame (conf : Config) (w : World) :
  let published := snd (writeClientConfig conf w) in
  let retracted := snd (deleteClientConfig conf w) in
  let paths := map team_config_filename (writeClientConfig_teams conf) in
  (disk published = disk w
   /\ (forall p, p ∉ paths -> kbfs published !! p = kbfs w !! p)
   /\ (forall p, is_Some (kbfs w !! p) -> is_Some (kbfs published !! p)))
  /\ (disk retracted = disk w
      /\ (forall p, p ∉ paths -> kbfs retracted !! p = kbfs w !! p)
      /\ kbfs retracted ⊆ kbfs w).
Proof.
  cbv zeta. split.
  - unfold writeClientConfig, bot_GetUsername, logrus_Debugf.
    destruct (fault w (OpGetUsername conf)) as [e|]; [done|].
    destruct (writeClientConfig_loop conf (bot_username w) (writeClientConfig_teams conf)
                (record (OpGetUsername conf) None w)) as [err w1] eqn:Hloop.
    destruct (writeClientConfig_loop_frame _ _ _ _ _ _ Hloop) as (Hdisk & _ & Hframe).
    assert (Hkeep : forall p, is_Some (kbfs w !! p) -> is_Some (kbfs w1 !! p)).
    { intros p Hp. by eapply writeClientConfig_loop_keeps_present. }
    by destruct err.
  - rewrite deleteClientConfig_unfold.
    destruct (deleteClientConfig_loop (deleteClientConfig_teams conf) w)
      as [err w1] eqn:Hloop.
    by destruct (deleteClientConfig_loop_frame _ _ _ _ Hloop) as (Hdisk & Hsub & Hframe).
Qed.

Lemma writeClientConfig_loop_store (conf : Config) (username : string)
    (teams : list string) (w1 w2 w1' w2' : World) :
  writeClientConfig_loop conf username teams w1 = (None, w1') ->
  writeClientConfig_loop conf username teams w2 = (None, w2') ->
  (forall p, p ∉ map team_config_filename teams -> kbfs w1 !! p = kbfs w2 !! p) ->
  kbfs w1' = kbfs w2'.
Proof.
  revert w1 w2. induction teams as [|team rest IH]; intros w1 w2 Hrun1 Hrun2 Hsame;
    simpl in Hrun1, Hrun2.
  - injection Hrun1 as <-. injection Hrun2 as <-. apply map_eq. intros p.
    apply Hsame. apply not_elem_of_nil.
  - destruct (json_Marshal (writeClientConfig_entry conf username team)) as [content|e];
      [|done].
    destruct (KBFSWrite (team_config_filename team) content false w1)
      as [[e|] w1a] eqn:Hwr1; [done|].
    destruct (KBFSWrite (team_config_filename team) content false w2)
      as [[e|] w2a] eqn:Hwr2; [done|].
    apply KBFSWrite_ok in Hwr1 as [_ ->]. apply KBFSWrite_ok in Hwr2 as [_ ->].
    apply (IH _ _ Hrun1 Hrun2). intros p Hp. simpl.
    destruct (decide (team_config_filename team = p)) as [<-|Hne].
    + by rewrite !lookup_insert_eq.
    + rewrite !lookup_insert_ne by done. apply Hsame. simpl.
      by apply not_elem_of_cons.
Qed.

(** X10.  Publish overwrites, it does not accumulate: when Publish is
    run a second time on the store the first run left, both runs report
    no error and the bot account resolved is the same, the second run
    leaves the store exactly as the first did. *)
Theorem publish_twice_same_store (conf : Config) (w : World) :
  let first := writeClientConfig conf w in
  let second := writeClientConfig conf (snd first) in
  fst first = None -> fst second = None ->
  bot_username (snd first) = bot_username w ->
  kbfs (snd second) = kbfs (snd first).
Proof.
  cbv zeta. unfold writeClientConfig, bot_GetUsername, logrus_Debugf.
  destruct (fault w (OpGetUsername conf)) as [e|]; [done|].
  destruct (writeClientConfig_loop conf (bot_username w) (writeClientConfig_teams conf)
              (record (OpGetUsername conf) None w)) as [[e|] w1] eqn:Hloop1; [done|].
  simpl. intros _.
  destruct (fault w1 (OpGetUsername conf)) as [e|]; [done|].
  destruct (writeClientConfig_loop conf (bot_username w1) (writeClientConfig_teams conf)
              (record (OpGetUsername conf) None w1)) as [[e|] w2] eqn:Hloop2; [done|].
  simpl. intros _ Hname. rewrite Hname in Hloop2.
  apply (writeClientConfig_loop_store _ _ _ _ _ _ _ Hloop2 Hloop1).
  intros p Hp. simpl.
  by destruct (writeClientConfig_loop_frame _ _ _ _ _ _ Hloop1) as (_ & _ & ->).
Qed.

End FrameFacts.

Lemma publish_twice_same_store_witness :
  let E := sample_externals [] "yes" 2 in
  let conf := sample_config ["alpha"; "beta"] "chat" "general" in
  let w := sample_world conf {[ "/keybase/team/alpha/notes" := "keep" ]} [] in
  let first := writeClientConfig conf w in
  let second := writeClientConfig conf (snd first) in
  size (kbfs (snd first)) = 4 /\ kbfs (snd second) = kbfs (snd first).
Proof.
  cbv zeta. split; [compute_done|].
  apply (@publish_twice_same_store (sample_externals [] "yes" 2)
           (sample_config ["alpha"; "beta"] "chat" "general")
           (sample_world (sample_config ["alpha"; "beta"] "chat" "general")
              {[ "/keybase/team/alpha/notes" := "keep" ]} []));
    reflexivity.
Defined.

(** ** The two spellings of a team's config path *)

Lemma string_app_nil_r (a : string) : a +:+ EmptyString = a.
Proof. induction a as [|c a IH]; [done|]. change (String c (a +:+ EmptyString) = String c a). by rewrite IH. Qed.

Lemma string_app_assoc (a b c : string) : (a +:+ b) +:+ c = a +:+ (b +:+ c).
Proof.
  induction a as [|x a IH]; [done|].
  change (String x ((a +:+ b) +:+ c) = String x (a +:+ (b +:+ c))). by rewrite IH.
Qed.

Lemma string_app_cons (x : ascii) (a b : string) : String x a +:+ b = String x (a +:+ b).
Proof. done. Qed.

Section PathFacts.
Import filepath.

Lemma elements_from_element (cur a rest : string) :
  no_separator a ->
  elements_from cur (a +:+ String Separator rest) = (cur +:+ a) :: elements_from EmptyString rest.
Proof.
  unfold no_separator. revert cur. induction a as [|c a IH]; intros cur Ha.
  - change (EmptyString +:+ String Separator rest) with (String Separator rest).
    simpl. by rewrite string_app_nil_r.
  - simpl in Ha. apply andb_prop in Ha as [Hc Ha].
    rewrite string_app_cons. simpl.
    apply negb_true_iff in Hc. rewrite Hc. rewrite (IH _ Ha).
    by rewrite string_app_assoc.
Qed.

Lemma elements_from_last (cur a : string) :
  no_separator a -> elements_from cur a = [cur +:+ a].
Proof.
  unfold no_separator. revert cur. induction a as [|c a IH]; intros cur Ha.
  - simpl. by rewrite string_app_nil_r.
  - simpl in Ha. apply andb_prop in Ha as [Hc Ha]. simpl.
    apply negb_true_iff in Hc. rewrite Hc. rewrite (IH _ Ha).
    by rewrite string_app_assoc.
Qed.

Lemma plain_element_spec (el : string) :
  plain_element el = true ->
  el <> EmptyString /\ el <> "." /\ el <> ".." /\ no_separator el.
Proof.
  unfold plain_element. intros Hp.
  apply andb_prop in Hp as [Hp H4]. apply andb_prop in Hp as [Hp H3].
  apply andb_prop in Hp as [H1 H2].
  apply bool_decide_eq_true in H1, H2, H3. done.
Qed.

Lemma clean_step_plain (rooted : bool) (dd : nat) (kept : list string) (el : string) :
  plain_element el = true -> clean_step rooted (dd, kept) el = (dd, kept ++ [el]).
Proof.
  intros (H1 & H2 & H3 & _)%plain_element_spec. unfold clean_step.
  by rewrite !decide_False.
Qed.

Lemma clean_step_empty (rooted : bool) (st : nat * list string) :
  clean_step rooted st EmptyString = st.
Proof. by destruct st. Qed.

Lemma team_config_elements (team file : string) :
  plain_element team = true -> plain_element file = true ->
  elements ("/keybase/team/" +:+ "/" +:+ team +:+ "/" +:+ file)
  = [EmptyString; "keybase"; "team"; EmptyString; team; file].
Proof.
  intros (_ & _ & _ & Hteam)%plain_element_spec (_ & _ & _ & Hfile)%plain_element_spec.
  unfold elements.
  change ("/keybase/team/" +:+ "/" +:+ team +:+ "/" +:+ file)
    with (EmptyString +:+ String Separator ("keybase" +:+ String Separator
            ("team" +:+ String Separator (EmptyString +:+ String Separator
               (team +:+ String Separator file))))).
  rewrite !elements_from_element by done.
  by rewrite elements_from_last.
Qed.

(** [Join] of the team root, a plain team name and a plain file name:
    the doubled separator is removed and nothing else changes. *)
Lemma Join_team_file (team file : string) :
  plain_element team = true -> plain_element file = true ->
  Join ["/keybase/team/"; team; file] = "/keybase/team/" +:+ team +:+ "/" +:+ file.
Proof.
  intros Hteam Hfile.
  change (Join ["/keybase/team/"; team; file])
    with (Clean ("/keybase/team/" +:+ "/" +:+ team +:+ "/" +:+ file)).
  unfold Clean.
  change ("/keybase/team/" +:+ "/" +:+ team +:+ "/" +:+ file)
    with (String "/" ("keybase/team/" +:+ "/" +:+ team +:+ "/" +:+ file)) at 1.
  cbv iota beta.
  change (String "/" ("keybase/team/" +:+ "/" +:+ team +:+ "/" +:+ file))
    with ("/keybase/team/" +:+ "/" +:+ team +:+ "/" +:+ file).
  rewrite (team_config_elements team file Hteam Hfile).
  change (Ascii.eqb "/" Separator) with true. cbv zeta. cbn [fold_left].
  rewrite !clean_step_empty.
  rewrite (clean_step_plain true 0 [] "keybase") by done.
  rewrite (clean_step_plain true 0 _ "team") by done.
  rewrite (clean_step_plain true 0 _ team) by done.
  rewrite (clean_step_plain true 0 _ file) by done.
  reflexivity.
Qed.

End PathFacts.

Section PathAgreement.
Context `{E : Externals}.

(** X11.  For a team name that is a plain path element (not empty, not
    [.] or [..], without a slash), and a config file name that is one
    too, the path Publish and Retract build with [filepath.Join] for the
    team is the path the maintenance scan builds with [fmt.Sprintf]:
    the scan looks exactly where Publish writes. *)
Theorem publish_and_scan_paths_agree (team : string) :
  filepath.plain_element team = true ->
  filepath.plain_element ConfigFilename = true ->
  team_config_filename team = scan_filename team.
Proof. apply Join_team_file. Qed.

End PathAgreement.

Lemma publish_and_scan_paths_agree_witness :
  let E := sample_externals [] "yes" 2 in
  team_config_filename "alpha" = scan_filename "alpha".
Proof.
  cbv zeta.
  apply (@publish_and_scan_paths_agree (sample_externals [] "yes" 2) "alpha"); reflexivity.
Defined.

(** Two names that are not plain elements, on which the two paths
    differ: [Join] cleans the path, [Sprintf] does not.  (On others,
    such as [a/b], they still agree.) *)
Example paths_differ_on_other_names :
  let E := sample_externals [] "yes" 2 in
  (team_config_filename "a/../b" = "/keybase/team/b/kssh-client.config"
   /\ scan_filename "a/../b" = "/keybase/team/a/../b/kssh-client.config")
  /\ (team_config_filename EmptyString = "/keybase/team/kssh-client.config"
      /\ scan_filename EmptyString = "/keybase/team//kssh-client.config")
  /\ (filepath.plain_element "a/b" = false
      /\ team_config_filename "a/b" = scan_filename "a/b").
Proof. cbv zeta. repeat split; reflexivity. Qed.

(** ** The force flag of [generate] *)

Lemma lower_ascii_t (c : ascii) : lower_ascii c = "t"%char -> c = "t"%char \/ c = "T"%char.
Proof. destruct c as [[] [] [] [] [] [] [] []]; vm_compute; intros; try discriminate; auto. Qed.

Lemma lower_ascii_r (c : ascii) : lower_ascii c = "r"%char -> c = "r"%char \/ c = "R"%char.
Proof. destruct c as [[] [] [] [] [] [] [] []]; vm_compute; intros; try discriminate; auto. Qed.

Lemma lower_ascii_u (c : ascii) : lower_ascii c = "u"%char -> c = "u"%char \/ c = "U"%char.
Proof. destruct c as [[] [] [] [] [] [] [] []]; vm_compute; intros; try discriminate; auto. Qed.

Lemma lower_ascii_e (c : ascii) : lower_ascii c = "e"%char -> c = "e"%char \/ c = "E"%char.
Proof. destruct c as [[] [] [] [] [] [] [] []]; vm_compute; intros; try discriminate; auto. Qed.

(** X12.  [generateAction] asks [sshutils.Generate] to overwrite an
    existing key exactly when the value of [FORCE_WRITE] is the word
    [true] in any mix of upper and lower case: four letters, nothing
    before or after.  Values such as [1], [yes] or [true] followed by a
    space do not force. *)
Theorem force_write_spellings (v : string) :
  force_write v = true
  <-> exists t r u e,
        v = String t (String r (String u (String e EmptyString)))
        /\ (t = "t" \/ t = "T")%char /\ (r = "r" \/ r = "R")%char
        /\ (u = "u" \/ u = "U")%char /\ (e = "e" \/ e = "E")%char.
Proof.
  unfold force_write. rewrite bool_decide_eq_true. split.
  - destruct v as [|t [|r [|u [|e [|x v]]]]]; simpl; try discriminate.
    intros [= Ht Hr Hu He]. exists t, r, u, e.
    split; [done|]. split; [by apply lower_ascii_t|]. split; [by apply lower_ascii_r|].
    split; [by apply lower_ascii_u|by apply lower_ascii_e].
  - intros (t & r & u & e & -> & [-> | ->] & [-> | ->] & [-> | ->] & [-> | ->]);
      reflexivity.
Qed.

Example force_write_values :
  map force_write ["true"; "TRUE"; "True"; "tRuE"] = [true; true; true; true]
  /\ map force_write [EmptyString; "1"; "yes"; "false"; "true "; " true"; "truee"]
     = [false; false; false; false; false; false; false].
Proof. split; reflexivity. Qed.

(** ** The Bounded Maintenance Scanner *)

Section ScannerFacts.
Context `{E : Externals}.

Lemma count_nil (f : Task -> bool) : count f [] = 0.
Proof. reflexivity. Qed.

Lemma count_cons (f : Task -> bool) (t : Task) (ts : list Task) :
  count f (t :: ts) = (if f t then 1 else 0) + count f ts.
Proof.
  unfold count. rewrite filter_cons. destruct (f t); case_decide; done.
Qed.

Lemma count_app (f : Task -> bool) (l1 l2 : list Task) :
  count f (l1 ++ l2) = count f l1 + count f l2.
Proof. unfold count. by rewrite filter_app, length_app. Qed.

Lemma count_middle (f : Task -> bool) (l1 l2 : list Task) (t : Task) :
  count f (l1 ++ t :: l2) = count f l1 + (if f t then 1 else 0) + count f l2.
Proof. rewrite count_app, count_cons. lia. Qed.

Lemma in_flight_holds_slot (ts : list Task) :
  count in_flight ts <= count holds_slot ts.
Proof.
  induction ts as [|[team pc] ts IH]; [done|].
  rewrite !count_cons. destruct pc; simpl; lia.
Qed.

(** *** The steps, case by case *)

Lemma main_step_inv (s s' : Scan) :
  main_step s = Some s' ->
  (exists team rest,
      mainpc s = MLaunch (team :: rest)
      /\ s' = mkScan (world s) (tasks s ++ [mkTask team PAcquire]) (MLaunch rest)
                     (boundChan s) (semaphore s) (teamsFound s) (scan_err s))
  \/ (mainpc s = MLaunch [] /\ semaphore s = 0
      /\ s' = mkScan (print (scan_report (teamsFound s)) (world s)) (tasks s) MReturned
                     (boundChan s) (semaphore s) (teamsFound s) (scan_err s)).
Proof.
  unfold main_step. destruct (mainpc s) as [[|team rest]|]; [| |done].
  - case_decide; [|done]. intros [= <-]. right. done.
  - intros [= <-]. left. by exists team, rest.
Qed.

Lemma goroutine_step_inv (i : nat) (s s' : Scan) :
  goroutine_step i s = Some s' ->
  exists l1 t l2,
    tasks s = l1 ++ t :: l2 /\ length l1 = i
    /\ let team := task_team t in
       let next pc := l1 ++ mkTask team pc :: l2 in
       match task_pc t with
       | PAcquire =>
           boundChan s < BoundedParallelismLimit
           /\ s' = mkScan (world s) (next PExists) (mainpc s)
                          (S (boundChan s)) (semaphore s) (teamsFound s) (scan_err s)
       | PExists =>
           let r := KBFSFileExists (scan_filename team) (world s) in
           s' = mkScan (snd r) (next (if fst (fst r) then PDelete else PDone)) (mainpc s)
                       (boundChan s) (semaphore s) (teamsFound s) (scan_err s)
       | PDelete =>
           let r := KBFSDelete (scan_filename team) (world s) in
           s' = mkScan (snd r) (next PCheckErr) (mainpc s)
                       (boundChan s) (semaphore s) (teamsFound s) (fst r)
       | PCheckErr =>
           s' = mkScan (world s)
                       (next (match scan_err s with Some _ => PPrintErr | None => PAppend end))
                       (mainpc s) (boundChan s) (semaphore s) (teamsFound s) (scan_err s)
       | PPrintErr =>
           s' = mkScan (print (error_line (scan_err s)) (world s)) (next PAppend)
                       (mainpc s) (boundChan s) (semaphore s) (teamsFound s) (scan_err s)
       | PAppend =>
           s' = mkScan (world s) (next PDone) (mainpc s)
                       (boundChan s) (semaphore s) (teamsFound s ++ [team]) (scan_err s)
       | PDone =>
           s' = mkScan (world s) (next PRelease) (mainpc s)
                       (boundChan s) (pred (semaphore s)) (teamsFound s) (scan_err s)
       | PRelease =>
           s' = mkScan (world s) (next PFinished) (mainpc s)
                       (pred (boundChan s)) (semaphore s) (teamsFound s) (scan_err s)
       | PFinished => False
       end.
Proof.
  unfold goroutine_step, set_task.
  destruct (tasks s !! i) as [t|] eqn:Hi; [|done].
  intros Hstep. exists (take i (tasks s)), t, (drop (S i) (tasks s)).
  pose proof (lookup_lt_Some _ _ _ Hi) as Hlt.
  split; [by rewrite take_drop_middle|]. split; [rewrite length_take; lia|].
  cbv zeta. destruct t as [team pc]. simpl in *.
  destruct pc.
  - case_decide; [|done]. injection Hstep as <-. by rewrite insert_take_drop.
  - destruct (KBFSFileExists (scan_filename team) (world s)) as [[ex err] w1].
    injection Hstep as <-. simpl. by rewrite insert_take_drop.
  - destruct (KBFSDelete (scan_filename team) (world s)) as [err w1].
    injection Hstep as <-. simpl. by rewrite insert_take_drop.
  - injection Hstep as <-. by rewrite insert_take_drop.
  - injection Hstep as <-. by rewrite insert_take_drop.
  - injection Hstep as <-. by rewrite insert_take_drop.
  - injection Hstep as <-. by rewrite insert_take_drop.
  - injection Hstep as <-. by rewrite insert_take_drop.
  - done.
Qed.

(** A property of the start that every step preserves holds throughout. *)
Lemma scan_invariant (P : Scan -> Prop) (s0 : Scan) :
  P s0 ->
  (forall s s', rtc step s0 s -> P s -> step s s' -> P s') ->
  forall s, rtc step s0 s -> P s.
Proof.
  intros Hinit Hstep. apply rtc_ind_r; [done|].
  intros s s' Hreach Hs IH. by apply (Hstep s s').
Qed.

(** Case analysis on a step: the two steps of the main routine, then
    the eight steps of a goroutine in the order of its phases. *)
Ltac step_cases Hstep :=
  let a := fresh "a" in
  destruct Hstep as [a Hstep]; destruct a as [|?i]; simpl in Hstep;
  [ apply main_step_inv in Hstep as
      [(?team & ?rest & ?Hmain & ->) | (?Hmain & ?Hsem & ->)]
  | apply goroutine_step_inv in Hstep as (?l1 & [?team ?pc] & ?l2 & ?Htasks & _ & Hstep);
    cbv zeta in Hstep; simpl in Hstep;
    match type of Hstep with
    | match ?pc with _ => _ end =>
        destruct pc;
        [ destruct Hstep as [?Hlt Hstep] | | | | | | | | destruct Hstep ];
        match type of Hstep with ?x = _ => subst x end
    end ].

(** The branch a goroutine takes after its check or its test of [err]. *)
Ltac branch :=
  try match goal with
      | |- context [if (KBFSFileExists ?f ?w).1.1 then _ else _] =>
          destruct (KBFSFileExists f w).1.1
      | |- context [match scan_err ?s with _ => _ end] => destruct (scan_err s)
      end.

(** *** The slots of [boundChan] *)

Lemma slots_invariant (s0 s : Scan) :
  count holds_slot (tasks s0) = boundChan s0 ->
  boundChan s0 <= BoundedParallelismLimit ->
  rtc step s0 s ->
  count holds_slot (tasks s) = boundChan s
  /\ boundChan s <= BoundedParallelismLimit.
Proof.
  intros H0 H0' Hreach. revert s Hreach.
  apply scan_invariant; [done|].
  intros s s' _ [Hcount Hle] Hstep. step_cases Hstep; simpl;
    try (rewrite Htasks, count_middle in Hcount; simpl in Hcount);
    rewrite ?count_app, ?count_middle, ?count_cons, ?count_nil; branch; simpl;
    split; lia.
Qed.

(** *** The wait group and the launches *)

Lemma wait_invariant (s0 s : Scan) :
  semaphore s0 = length (to_launch s0) + count not_done (tasks s0) ->
  rtc step s0 s ->
  semaphore s = length (to_launch s) + count not_done (tasks s).
Proof.
  intros H0. revert s. apply scan_invariant; [done|].
  intros s s' _ Hsem Hstep. unfold to_launch in *.
  step_cases Hstep; simpl;
    try (rewrite Htasks, count_middle in Hsem; simpl in Hsem);
    try rewrite Hmain in Hsem; simpl in Hsem;
    rewrite ?count_app, ?count_middle, ?count_cons, ?count_nil; branch; simpl;
    lia.
Qed.

Lemma teams_invariant (s0 s : Scan) :
  rtc step s0 s ->
  map task_team (tasks s) ++ to_launch s = map task_team (tasks s0) ++ to_launch s0.
Proof.
  revert s. apply scan_invariant; [done|].
  intros s s' _ Hteams Hstep. unfold to_launch in *.
  step_cases Hstep; simpl;
    try (rewrite Htasks in Hteams);
    try rewrite Hmain in Hteams; rewrite <- Hteams;
    rewrite ?map_app; simpl; rewrite <- ?app_assoc; done.
Qed.

(** *** What a goroutine's store operations do to the world *)

Lemma KBFSFileExists_eq (f : string) (w : World) :
  KBFSFileExists f w
  = ((match fault w (OpKBFSFileExists f) with
      | Some _ => false
      | None => bool_decide (is_Some (kbfs w !! f))
      end, fault w (OpKBFSFileExists f)),
     record (OpKBFSFileExists f) (fault w (OpKBFSFileExists f)) w).
Proof. unfold KBFSFileExists. by destruct (fault w (OpKBFSFileExists f)). Qed.

Lemma KBFSDelete_eq (f : string) (w : World) :
  KBFSDelete f w
  = (fault w (OpKBFSDelete f),
     record (OpKBFSDelete f) (fault w (OpKBFSDelete f))
       (match fault w (OpKBFSDelete f) with
        | Some _ => w
        | None => set_kbfs (delete f) w
        end)).
Proof. unfold KBFSDelete. by destruct (fault w (OpKBFSDelete f)). Qed.

Lemma KBFSDelete_trace (f : string) (w : World) :
  trace (snd (KBFSDelete f w)) = trace w ++ [(OpKBFSDelete f, fst (KBFSDelete f w))].
Proof. rewrite KBFSDelete_eq. simpl. by destruct (fault w (OpKBFSDelete f)). Qed.

Lemma KBFSDelete_stdout (f : string) (w : World) :
  stdout (snd (KBFSDelete f w)) = stdout w.
Proof. rewrite KBFSDelete_eq. simpl. by destruct (fault w (OpKBFSDelete f)). Qed.

Lemma KBFSDelete_kbfs (f : string) (w : World) :
  kbfs (snd (KBFSDelete f w))
  = match fst (KBFSDelete f w) with
    | Some _ => kbfs w
    | None => delete f (kbfs w)
    end.
Proof. rewrite KBFSDelete_eq. simpl. by destruct (fault w (OpKBFSDelete f)). Qed.

Lemma KBFSDelete_fault (f : string) (w : World) :
  fst (KBFSDelete f w) = fault w (OpKBFSDelete f).
Proof. by rewrite KBFSDelete_eq. Qed.

Lemma appending_middle (l1 l2 : list Task) (t : Task) :
  appending (l1 ++ t :: l2)
  = appending l1 ++ (if awaits_append t then [task_team t] else []) ++ appending l2.
Proof.
  unfold appending. rewrite filter_app, filter_cons, map_app.
  destruct (awaits_append t); by case_decide.
Qed.

Lemma deleted_paths_snoc (evs : list Event) (ev : Event) :
  deleted_paths (evs ++ [ev])
  = deleted_paths evs ++ match fst ev with OpKBFSDelete p => [p] | _ => [] end.
Proof.
  unfold deleted_paths. rewrite omap_app. simpl. by destruct (fst ev).
Qed.

(** What holds of every goroutine still holds when one of them moves on,
    if it holds of that one in its new phase. *)
Lemma tasks_next (Q : Task -> Prop) (l1 l2 : list Task) (t t' : Task) :
  (forall x, x ∈ l1 ++ t :: l2 -> Q x) ->
  (Q t -> Q t') ->
  forall x, x ∈ l1 ++ t' :: l2 -> Q x.
Proof.
  intros Hall Hnew x [Hin|[->|Hin]%elem_of_cons]%elem_of_app.
  - apply Hall. apply elem_of_app. by left.
  - apply Hnew, Hall. apply elem_of_app. right. by left.
  - apply Hall. apply elem_of_app. right. by right.
Qed.

Lemma deletion_error_more (evs : list Event) (ev : Event) (e : error) :
  deletion_error evs e -> deletion_error (evs ++ [ev]) e.
Proof. intros [p Hp]. exists p. apply elem_of_app. by left. Qed.

Lemma events_invariant (s0 s : Scan) :
  teamsFound s0 = [] -> tasks s0 = [] -> scan_err s0 = None ->
  rtc step s0 s ->
  exists evs, events_ok s0 s evs.
Proof.
  intros Hf0 Ht0 He0. revert s. apply scan_invariant.
  { exists []. unfold events_ok. rewrite Hf0, Ht0, He0, app_nil_r.
    repeat split; try done; try (by intros ? ?%elem_of_nil);
      try (by intros ? ? ?%elem_of_nil).
    exists []. split; [by rewrite app_nil_r|]. by intros ? ?%elem_of_nil. }
  intros s s' _ (evs & Htr & Hperm & Hchk & Habs & Hor & Herr & Hpr & out & Hout & Hlines)
    Hstep.
  step_cases Hstep; unfold events_ok; simpl.
  - (* launch *)
    exists evs. split; [done|]. split.
    { unfold appending. rewrite filter_app. simpl. by rewrite app_nil_r. }
    split.
    { intros t [Hin| ->%list_elem_of_singleton]%elem_of_app; [by auto|done]. }
    split; [done|]. split; [done|]. split; [done|]. split.
    { intros t [Hin| ->%list_elem_of_singleton]%elem_of_app; [by eauto|done]. }
    by exists out.
  - (* report *)
    exists evs. repeat (split; [done|]).
    exists (out ++ [scan_report (teamsFound s)]).
    split; [by rewrite Hout, <- app_assoc|].
    intros line [Hin| ->%list_elem_of_singleton]%elem_of_app; [by auto|].
    left. by eexists.
  - (* send on boundChan *)
    rewrite Htasks in *. exists evs. split; [done|]. split.
    { by rewrite appending_middle in *. }
    split; [by apply (tasks_next _ _ _ _ _ Hchk)|].
    split; [done|]. split; [done|]. split; [done|].
    split; [by apply (tasks_next _ _ _ _ _ Hpr)|]. by exists out.
  - (* KBFSFileExists *)
    rewrite KBFSFileExists_eq. simpl. rewrite Htasks in *.
    set (ev := (OpKBFSFileExists (scan_filename team),
                fault (world s) (OpKBFSFileExists (scan_filename team))) : Event).
    exists (evs ++ [ev]). split; [by rewrite Htr, <- app_assoc|]. split.
    { rewrite deleted_paths_snoc, app_nil_r. rewrite appending_middle in *.
      by destruct (fault _ _); [|destruct (bool_decide _)]. }
    split.
    { apply (tasks_next (fun t => task_pc t <> PAcquire -> task_pc t <> PExists ->
                           exists r, (OpKBFSFileExists (scan_filename (task_team t)), r)
                                     ∈ evs ++ [ev])
               _ _ (mkTask team PExists)).
      - intros t Hin ? ?. destruct (Hchk t Hin) as [r Hr]; [done|done|].
        exists r. apply elem_of_app. by left.
      - intros _ _ _. eexists. apply elem_of_app. right. by left. }
    split.
    { intros p [Hin|[=]%list_elem_of_singleton]%elem_of_app. by auto. }
    split.
    { intros op r [Hin|[= -> ->]%list_elem_of_singleton]%elem_of_app; by eauto. }
    split.
    { intros e He. by apply deletion_error_more, Herr. }
    split.
    { apply (tasks_next (fun t => task_pc t = PPrintErr ->
                           exists e, deletion_error (evs ++ [ev]) e)
               _ _ (mkTask team PExists)).
      - intros t Hin Hpc. destruct (Hpr t Hin Hpc) as [e He].
        exists e. by apply deletion_error_more.
      - simpl. by destruct (fault _ _); [|destruct (bool_decide _)]. }
    exists out. split; [done|].
    intros line Hin. destruct (Hlines line Hin) as [?|[(e & He & ?)|[? (e & He)]]];
      [by left|right; left|right; right].
    + exists e. split; [by apply deletion_error_more|done].
    + split; [done|]. exists e. by apply deletion_error_more.
  - (* err = KBFSDelete *)
    rewrite Htasks in *.
    set (r := fst (KBFSDelete (scan_filename team) (world s))).
    set (ev := (OpKBFSDelete (scan_filename team), r) : Event).
    exists (evs ++ [ev]). split; [by rewrite KBFSDelete_trace, Htr, <- app_assoc|]. split.
    { rewrite deleted_paths_snoc. simpl. rewrite appending_middle in *. simpl in *.
      rewrite Hperm, !map_app. simpl. solve_Permutation. }
    split.
    { apply (tasks_next (fun t => task_pc t <> PAcquire -> task_pc t <> PExists ->
                           exists r, (OpKBFSFileExists (scan_filename (task_team t)), r)
                                     ∈ evs ++ [ev])
               _ _ (mkTask team PDelete)).
      - intros t Hin ? ?. destruct (Hchk t Hin) as [r' Hr]; [done|done|].
        exists r'. apply elem_of_app. by left.
      - intros Hold _ _. by apply Hold. }
    split.
    { rewrite KBFSDelete_kbfs. fold r.
      intros p [Hin|[= -> Hf]%list_elem_of_singleton]%elem_of_app.
      - specialize (Habs _ Hin). destruct r; [done|].
        apply lookup_delete_None. by right.
      - rewrite <- Hf. apply lookup_delete_eq. }
    split.
    { intros op r' [Hin|[= -> ->]%list_elem_of_singleton]%elem_of_app; [by eauto|].
      eexists. apply KBFSDelete_fault. }
    split.
    { intros e He. exists (scan_filename team). apply elem_of_app. right.
      rewrite <- He. by left. }
    split.
    { apply (tasks_next (fun t => task_pc t = PPrintErr ->
                           exists e, deletion_error (evs ++ [ev]) e)
               _ _ (mkTask team PDelete)).
      - intros t Hin Hpc. destruct (Hpr t Hin Hpc) as [e He].
        exists e. by apply deletion_error_more.
      - done. }
    exists out. split; [by rewrite KBFSDelete_stdout|].
    intros line Hin. destruct (Hlines line Hin) as [?|[(e & He & ?)|[? (e & He)]]];
      [by left|right; left|right; right].
    + exists e. split; [by apply deletion_error_more|done].
    + split; [done|]. exists e. by apply deletion_error_more.
  - (* if err != nil *)
    rewrite Htasks in *. exists evs. split; [done|]. split.
    { rewrite appending_middle in *. by destruct (scan_err s). }
    split.
    { apply (tasks_next _ _ _ (mkTask team PCheckErr) _ Hchk). simpl. auto. }
    split; [done|]. split; [done|]. split; [done|]. split.
    { apply (tasks_next _ _ _ (mkTask team PCheckErr) _ Hpr). simpl.
      intros _. destruct (scan_err s) as [e|] eqn:He; [by eauto|done]. }
    by exists out.
  - (* print err *)
    rewrite Htasks in *. exists evs. split; [done|]. split.
    { by rewrite appending_middle in *. }
    split.
    { apply (tasks_next _ _ _ (mkTask team PPrintErr) _ Hchk). simpl. auto. }
    split; [done|]. split; [done|]. split; [done|]. split.
    { by apply (tasks_next _ _ _ (mkTask team PPrintErr) _ Hpr). }
    exists (out ++ [error_line (scan_err s)]).
    split; [by rewrite Hout, <- app_assoc|].
    intros line [Hin| ->%list_elem_of_singleton]%elem_of_app; [by auto|].
    right. destruct (scan_err s) as [e|] eqn:He; simpl.
    + left. exists e. split; [by apply Herr|done].
    + right. split; [done|]. apply (Hpr (mkTask team PPrintErr)); [|done].
      apply elem_of_app. right. by left.
  - (* append *)
    rewrite Htasks in *. exists evs. split; [done|]. split.
    { rewrite appending_middle in *. simpl in *.
      rewrite Hperm, !map_app. simpl. solve_Permutation. }
    split.
    { apply (tasks_next _ _ _ (mkTask team PAppend) _ Hchk). simpl. auto. }
    split; [done|]. split; [done|]. split; [done|]. split.
    { by apply (tasks_next _ _ _ (mkTask team PAppend) _ Hpr). }
    by exists out.
  - (* semaphore.Done *)
    rewrite Htasks in *. exists evs. split; [done|]. split.
    { by rewrite appending_middle in *. }
    split.
    { apply (tasks_next _ _ _ (mkTask team PDone) _ Hchk). simpl. auto. }
    split; [done|]. split; [done|]. split; [done|]. split.
    { by apply (tasks_next _ _ _ (mkTask team PDone) _ Hpr). }
    by exists out.
  - (* receive from boundChan *)
    rewrite Htasks in *. exists evs. split; [done|]. split.
    { by rewrite appending_middle in *. }
    split.
    { apply (tasks_next _ _ _ (mkTask team PRelease) _ Hchk). simpl. auto. }
    split; [done|]. split; [done|]. split; [done|]. split.
    { by apply (tasks_next _ _ _ (mkTask team PRelease) _ Hpr). }
    by exists out.
Qed.

(** *** After the report *)

Lemma count_zero (f : Task -> bool) (l1 l2 : list Task) (t : Task) :
  count f (l1 ++ t :: l2) = 0 -> f t = false.
Proof. rewrite count_middle. destruct (f t); [lia|done]. Qed.

Lemma returned_invariant (s0 s : Scan) :
  semaphore s0 = length (to_launch s0) + count not_done (tasks s0) ->
  mainpc s0 <> MReturned ->
  rtc step s0 s ->
  mainpc s = MReturned ->
  semaphore s = 0
  /\ last (stdout (world s)) = Some (scan_report (teamsFound s)).
Proof.
  intros H0 Hm0. revert s.
  apply (scan_invariant
           (fun s => mainpc s = MReturned ->
                     semaphore s = 0
                     /\ last (stdout (world s)) = Some (scan_report (teamsFound s)))).
  { done. }
  intros s s' Hreach IH Hstep.
  pose proof (wait_invariant _ _ H0 Hreach) as Hwait. unfold to_launch in Hwait.
  step_cases Hstep; simpl; try done.
  1: { intros _. split; [done|]. apply last_snoc. }
  all: intros Hret; destruct (IH Hret) as [Hsem Hlast];
    rewrite Hret, Hsem, Htasks in Hwait; simpl in Hwait;
    symmetry in Hwait; by apply count_zero in Hwait.
Qed.

(** *** Termination and progress *)




Lemma count_none (f : Task -> bool) (ts : list Task) (i : nat) (t : Task) :
  count f ts = 0 -> ts !! i = Some t -> f t = false.
Proof.
  intros Hc Hi. rewrite <- (take_drop_middle _ _ _ Hi) in Hc.
  by apply count_zero in Hc.
Qed.




(** A run under a schedule is an interleaving. *)
Lemma run_reachable (sched : list Sched) (s : Scan) : rtc step s (run sched s).
Proof.
  revert s. induction sched as [|a sched IH]; intros s; simpl; [done|].
  destruct (step_by a s) as [s'|] eqn:Hs; [|done].
  eapply rtc_l; [|apply IH]. by exists a.
Qed.

(** *** The store during the scan *)

Lemma string_length_app (a b : string) :
  String.length (a +:+ b) = String.length a + String.length b.
Proof. induction a as [|c a IH]; simpl; [done|]. by rewrite IH. Qed.

Lemma string_app_inv_tail (a b q : string) : a +:+ q = b +:+ q -> a = b.
Proof.
  revert b. induction a as [|c a IH]; intros [|d b] Heq.
  - done.
  - apply (f_equal String.length) in Heq.
    rewrite !string_length_app in Heq. simpl in Heq. lia.
  - apply (f_equal String.length) in Heq.
    rewrite !string_length_app in Heq. simpl in Heq. lia.
  - change (String c (a +:+ q) = String d (b +:+ q)) in Heq.
    injection Heq as -> Heq. by rewrite (IH _ Heq).
Qed.

Lemma scan_filename_inj (t1 t2 : string) :
  scan_filename t1 = scan_filename t2 -> t1 = t2.
Proof.
  unfold scan_filename. intros Heq. apply String.app_inj in Heq.
  by apply string_app_inv_tail in Heq.
Qed.

(** Two goroutines are never launched for the same team when the listing
    has no repetition. *)
Lemma other_task_other_team (l1 l2 : list Task) (t x : Task) :
  NoDup (map task_team (l1 ++ t :: l2)) ->
  x ∈ l1 \/ x ∈ l2 -> task_team x <> task_team t.
Proof.
  rewrite map_app. simpl. intros (Hnd1 & Hdisj & Hnd2)%NoDup_app Hin Heq.
  apply NoDup_cons in Hnd2 as [Hnotin _].
  destruct Hin as [Hin|Hin].
  - apply (Hdisj (task_team x)); [by apply list_elem_of_fmap_2|].
    rewrite Heq. by left.
  - apply Hnotin. rewrite <- Heq. by apply list_elem_of_fmap_2.
Qed.

Lemma task_in_next (l1 l2 : list Task) (t' x : Task) :
  x ∈ l1 ++ t' :: l2 -> x = t' \/ (x ∈ l1 \/ x ∈ l2).
Proof.
  intros [Hin|[-> |Hin]%elem_of_cons]%elem_of_app; [right; by left|by left|right; by right].
Qed.

Lemma task_in_prev (l1 l2 : list Task) (t x : Task) :
  x ∈ l1 \/ x ∈ l2 -> x ∈ l1 ++ t :: l2.
Proof. intros [Hin|Hin]; apply elem_of_app; [by left|right; by right]. Qed.

Lemma not_appending (l1 l2 : list Task) (t : Task) :
  NoDup (map task_team (l1 ++ t :: l2)) ->
  awaits_append t = false ->
  task_team t ∉ appending (l1 ++ t :: l2).
Proof.
  intros Hnd Hpc Hin. rewrite appending_middle, Hpc in Hin.
  simpl in Hin. unfold appending in Hin.
  assert (Hx : exists x, (x ∈ l1 \/ x ∈ l2) /\ task_team x = task_team t).
  { apply elem_of_app in Hin as [Hin|Hin];
      apply list_elem_of_fmap in Hin as (x & Heq & Hx);
      apply list_elem_of_filter in Hx as [_ Hx]; exists x; auto. }
  destruct Hx as (x & Hx & Heq).
  by apply (other_task_other_team _ _ _ _ Hnd Hx).
Qed.

Lemma store_invariant (s0 s : Scan) :
  NoDup (map task_team (tasks s0) ++ to_launch s0) ->
  (forall w p, fault w (OpKBFSFileExists p) = None) ->
  tasks s0 = [] -> teamsFound s0 = [] ->
  rtc step s0 s ->
  store_ok (kbfs (world s0)) s.
Proof.
  intros Hnd0 Hex Ht0 Hf0. revert s. apply scan_invariant.
  { unfold store_ok. rewrite Ht0, Hf0.
    repeat split; first [done | apply NoDup_nil_2 | by intros ? ?%elem_of_nil]. }
  intros s s' Hreach (Hframe & Hnd & Htask & Hsub) Hstep.
  pose proof (teams_invariant _ _ Hreach) as Hteams. rewrite <- Hteams in Hnd0.
  assert (Hndt : NoDup (map task_team (tasks s))) by (by apply NoDup_app in Hnd0 as [? _]).
  unfold to_launch in Hnd0.
  set (k0 := kbfs (world s0)) in *.
  assert (Hsub' : forall l1 l2 (t t' : Task),
             tasks s = l1 ++ t :: l2 -> task_team t' = task_team t ->
             forall team, team ∈ teamsFound s -> team ∈ map task_team (l1 ++ t' :: l2)).
  { intros l1 l2 t t' Heq Hteam team Hin%Hsub. rewrite Heq in Hin.
    rewrite map_app in *. simpl in *. by rewrite Hteam. }
  step_cases Hstep; unfold store_ok; simpl.
  - (* launch *)
    rewrite Hmain in Hnd0.
    repeat split; try done.
    + intros p Hp. apply Hframe. unfold appending in *.
      rewrite filter_app in Hp. simpl in Hp. by rewrite app_nil_r in Hp.
    + intros t [Hin| ->%list_elem_of_singleton]%elem_of_app; [by apply Htask|].
      unfold task_ok. simpl. intros Hin%Hsub.
      apply NoDup_app in Hnd0 as (_ & Hdisj & _). apply (Hdisj _ Hin). by left.
    + intros t Hin%Hsub. rewrite map_app. apply elem_of_app. by left.
  - (* report *)
    done.
  - (* send on boundChan *)
    split; [|split; [done|split; [|by eapply Hsub']]].
    + intros p Hp. apply Hframe. by rewrite Htasks, appending_middle in *.
    + rewrite Htasks in Htask. by apply (tasks_next _ _ _ _ _ Htask).
  - (* KBFSFileExists *)
    rewrite KBFSFileExists_eq, Hex. simpl.
    assert (Hme : team ∉ teamsFound s).
    { apply (Htask (mkTask team PExists)). rewrite Htasks. apply elem_of_app. right. by left. }
    assert (Hsame : kbfs (world s) !! scan_filename team = k0 !! scan_filename team).
    { apply Hframe. intros (t & Heq & Hin)%list_elem_of_fmap.
      apply scan_filename_inj in Heq as <-.
      apply elem_of_app in Hin as [Hin|Hin]; [done|].
      rewrite Htasks in Hin, Hndt. by apply (not_appending _ _ _ Hndt) in Hin. }
    split; [|split; [done|split; [|by eapply Hsub']]].
    + intros p Hp. apply Hframe. rewrite Htasks, appending_middle in *.
      by destruct (bool_decide _).
    + rewrite Htasks in Htask. apply (tasks_next _ _ _ _ _ Htask).
      intros _. unfold task_ok. rewrite Hsame.
      destruct (bool_decide (is_Some (k0 !! scan_filename team))) eqn:Hb; simpl.
      * by apply bool_decide_eq_true in Hb.
      * apply bool_decide_eq_false in Hb. done.
  - (* err = KBFSDelete *)
    split; [|split; [done|split; [|by eapply Hsub']]].
    + intros p Hp. rewrite appending_middle in Hp. simpl in Hp.
      assert (Hne : scan_filename team <> p).
      { intros <-. apply Hp. apply list_elem_of_fmap_2.
        apply elem_of_app. right. apply elem_of_app. right. by left. }
      assert (Hp' : p ∉ map scan_filename (teamsFound s ++ appending (tasks s))).
      { intros Hin. apply Hp. rewrite Htasks, appending_middle in Hin. simpl in Hin.
        rewrite !map_app in *. simpl. rewrite !elem_of_app in *.
        rewrite elem_of_cons. tauto. }
      rewrite KBFSDelete_kbfs, <- (Hframe _ Hp').
      destruct (KBFSDelete _ _).1; [done|]. by rewrite lookup_delete_ne.
    + rewrite Htasks in Htask. by apply (tasks_next _ _ _ _ _ Htask).
  - (* if err != nil *)
    split; [|split; [done|split; [|by eapply Hsub']]].
    + intros p Hp. apply Hframe. rewrite Htasks, appending_middle in *.
      by destruct (scan_err s).
    + rewrite Htasks in Htask. apply (tasks_next _ _ _ _ _ Htask).
      unfold task_ok. simpl. by destruct (scan_err s).
  - (* print err *)
    split; [|split; [done|split; [|by eapply Hsub']]].
    + intros p Hp. apply Hframe. by rewrite Htasks, appending_middle in *.
    + rewrite Htasks in Htask. by apply (tasks_next _ _ _ _ _ Htask).
  - (* append *)
    rewrite Htasks in *.
    destruct (Htask (mkTask team PAppend)) as [Hfile Hme];
      [apply elem_of_app; right; by left|]. simpl in Hfile, Hme.
    repeat split.
    + intros p Hp. apply Hframe. intros Hin. apply Hp.
      rewrite appending_middle in *. simpl in Hin.
      rewrite !map_app in *. simpl in *. rewrite !elem_of_app in *.
      rewrite elem_of_cons in Hin. rewrite list_elem_of_singleton. tauto.
    + apply NoDup_app. split; [done|]. split; [|apply NoDup_singleton].
      by intros t Hin ->%list_elem_of_singleton.
    + intros t [-> |Hin]%task_in_next.
      * unfold task_ok. simpl. split; [done|]. intros _. apply elem_of_app. right. by left.
      * pose proof (other_task_other_team _ _ _ _ Hndt Hin) as Hne. simpl in Hne.
        specialize (Htask t (task_in_prev _ _ _ _ Hin)).
        assert (Hiff : task_team t ∈ teamsFound s ++ [team]
                       <-> task_team t ∈ teamsFound s).
        { rewrite elem_of_app, list_elem_of_singleton. tauto. }
        unfold task_ok in *. destruct (task_pc t); rewrite Hiff; exact Htask.
    + intros t [Hin%Hsub| ->%list_elem_of_singleton]%elem_of_app; rewrite map_app in *;
        [done|]. apply elem_of_app. right. by left.
  - (* semaphore.Done *)
    split; [|split; [done|split; [|by eapply Hsub']]].
    + intros p Hp. apply Hframe. by rewrite Htasks, appending_middle in *.
    + rewrite Htasks in Htask. by apply (tasks_next _ _ _ _ _ Htask).
  - (* receive from boundChan *)
    split; [|split; [done|split; [|by eapply Hsub']]].
    + intros p Hp. apply Hframe. by rewrite Htasks, appending_middle in *.
    + rewrite Htasks in Htask. by apply (tasks_next _ _ _ _ _ Htask).
Qed.

(** *** The claims about the scanner *)

Lemma start_state (w0 : World) (s0 : Scan) :
  wipe_all_configs_start w0 = Ok s0 ->
  s0 = mkScan (record (OpKBFSList "/keybase/team/") None w0) []
              (MLaunch (kbfs_teams w0)) 0 (length (kbfs_teams w0)) [] None.
Proof.
  unfold wipe_all_configs_start, KBFSList.
  destruct (fault w0 (OpKBFSList "/keybase/team/")); [done|]. by intros [= <-].
Qed.

(** C9.  In every state the scan can reach, under any interleaving and
    for any list of teams, the goroutines between their send on
    [boundChan] and their receive from it are as many as the values
    buffered in the channel, which never exceed the limit; the store
    operations in flight are among them.  With no team, the first step
    is the main routine's report of an empty result and no goroutine
    exists. *)
Theorem scanner_never_exceeds_limit (w0 : World) (s0 s : Scan) :
  wipe_all_configs_start w0 = Ok s0 ->
  rtc step s0 s ->
  count in_flight (tasks s) <= BoundedParallelismLimit
  /\ count in_flight (tasks s) <= count holds_slot (tasks s)
  /\ count holds_slot (tasks s) = boundChan s
  /\ boundChan s <= BoundedParallelismLimit
  /\ (kbfs_teams w0 = [] ->
      main_step s0
      = Some (mkScan (print (scan_report []) (world s0)) [] MReturned 0 0 [] None)
      /\ forall i, goroutine_step i s0 = None).
Proof.
  intros Hstart Hreach. apply start_state in Hstart. subst s0.
  assert (Hs : count holds_slot (tasks s) = boundChan s
               /\ boundChan s <= BoundedParallelismLimit).
  { eapply slots_invariant; [| |exact Hreach]; [reflexivity|simpl; lia]. }
  destruct Hs as [Hslots Hle].
  pose proof (in_flight_holds_slot (tasks s)) as Hin.
  split; [lia|]. split; [done|]. split; [done|]. split; [done|].
  intros ->. by split.
Qed.

Lemma count_all_false (f : Task -> bool) (ts : list Task) (t : Task) :
  count f ts = 0 -> t ∈ ts -> f t = false.
Proof.
  intros Hc [i Hi]%list_elem_of_lookup. by eapply count_none.
Qed.

Lemma appending_none (ts : list Task) :
  (forall t, t ∈ ts -> awaits_append t = false) -> appending ts = [].
Proof.
  intros Hall. unfold appending.
  destruct (filter (fun t => awaits_append t = true) ts) as [|t l] eqn:Hf; [done|].
  assert (Hin : t ∈ filter (fun t => awaits_append t = true) ts) by (rewrite Hf; by left).
  apply list_elem_of_filter in Hin as [Hpc Hin]. rewrite (Hall t Hin) in Hpc. done.
Qed.


(** *** More on the scanner *)

Lemma frame_invariant (s0 s : Scan) :
  tasks s0 = [] ->
  rtc step s0 s ->
  disk (world s) = disk (world s0)
  /\ kbfs (world s) ⊆ kbfs (world s0)
  /\ (forall p, p ∉ map scan_filename (to_launch s0) ->
        kbfs (world s) !! p = kbfs (world s0) !! p)
  /\ exists evs, trace (world s) = trace (world s0) ++ evs
                 /\ Forall (scan_call (to_launch s0)) evs.
Proof.
  intros Hno. revert s. apply scan_invariant.
  { split; [done|]. split; [done|]. split; [done|]. exists []. by rewrite app_nil_r. }
  intros s s' Hreach (Hdisk & Hsub & Hframe & evs & Htr & Hevs) Hstep.
  pose proof (teams_invariant _ _ Hreach) as Hteams. rewrite Hno in Hteams.
  simpl in Hteams.
  step_cases Hstep; simpl.
  all: try (split; [done|]; split; [done|]; split; [done|]; by exists evs).
  - (* existence check *)
    rewrite KBFSFileExists_eq. simpl.
    split; [done|]. split; [done|]. split; [done|].
    eexists (evs ++ [_]). split; [by rewrite Htr, <- app_assoc|].
    apply Forall_app. split; [done|]. repeat constructor.
    exists team. split; [|by left].
    rewrite <- Hteams, Htasks, map_app. simpl.
    apply elem_of_app. left. apply elem_of_app. right. by left.
  - (* deletion *)
    assert (Hteam : team ∈ to_launch s0).
    { rewrite <- Hteams, Htasks, map_app. simpl.
      apply elem_of_app. left. apply elem_of_app. right. by left. }
    rewrite KBFSDelete_eq. simpl.
    destruct (fault (world s) (OpKBFSDelete (scan_filename team))) as [e|]; simpl.
    + split; [done|]. split; [done|]. split; [done|].
      eexists (evs ++ [_]). split; [by rewrite Htr, <- app_assoc|].
      apply Forall_app. split; [done|]. repeat constructor.
      exists team. split; [done|by right].
    + split; [done|]. split; [etrans; [apply delete_subseteq|done]|]. split.
      { intros p Hp. rewrite lookup_delete_ne; [by apply Hframe|].
        intros <-. apply Hp. by apply list_elem_of_fmap_2. }
      eexists (evs ++ [_]). split; [by rewrite Htr, <- app_assoc|].
      apply Forall_app. split; [done|]. repeat constructor.
      exists team. split; [done|by right].
Qed.

(** X13.  In every state the scan can reach, the local disk is as it
    was, the Team Directory Store holds a part of what it held (nothing
    was added or changed), every file that is not the config file of a
    listed team is still there, and every call made since the listing
    is an existence check or a deletion of the config file of a listed
    team. *)
Theorem scan_touches_only_listed_config_files (w0 : World) (s0 s : Scan) :
  wipe_all_configs_start w0 = Ok s0 ->
  rtc step s0 s ->
  disk (world s) = disk w0
  /\ kbfs (world s) ⊆ kbfs w0
  /\ (forall p, p ∉ map scan_filename (kbfs_teams w0) ->
        kbfs (world s) !! p = kbfs w0 !! p)
  /\ Forall (scan_call (kbfs_teams w0)) (events_since (world s0) (world s)).
Proof.
  intros Hstart Hreach. apply start_state in Hstart. subst s0.
  pose proof (fun Hno => frame_invariant _ _ Hno Hreach) as Hinv.
  destruct (Hinv eq_refl) as (Hdisk & Hsub & Hframe & evs & Htr & Hevs).
  split; [done|]. split; [done|]. split; [done|].
  by rewrite (events_since_app _ _ _ Htr).
Qed.

Lemma teams_where_middle (f : Task -> bool) (l1 l2 : list Task) (t : Task) :
  teams_where f (l1 ++ t :: l2)
  = teams_where f l1 ++ (if f t then [task_team t] else []) ++ teams_where f l2.
Proof.
  unfold teams_where. rewrite filter_app, filter_cons, map_app.
  destruct (f t); by case_decide.
Qed.

Lemma teams_where_app (f : Task -> bool) (l1 l2 : list Task) :
  teams_where f (l1 ++ l2) = teams_where f l1 ++ teams_where f l2.
Proof. unfold teams_where. by rewrite filter_app, map_app. Qed.

Lemma teams_where_all (f : Task -> bool) (ts : list Task) :
  (forall t, t ∈ ts -> f t = true) -> teams_where f ts = map task_team ts.
Proof.
  intros Hall. unfold teams_where. f_equal.
  induction ts as [|t ts IH]; [done|].
  rewrite filter_cons. rewrite decide_True by (apply Hall; by left).
  f_equal. apply IH. intros x Hx. apply Hall. by right.
Qed.

Lemma checked_paths_snoc (evs : list Event) (ev : Event) :
  checked_paths (evs ++ [ev])
  = checked_paths evs ++ match fst ev with OpKBFSFileExists p => [p] | _ => [] end.
Proof.
  unfold checked_paths. rewrite omap_app. simpl. by destruct (fst ev).
Qed.

Lemma checks_invariant (s0 s : Scan) :
  tasks s0 = [] -> teamsFound s0 = [] ->
  rtc step s0 s ->
  (exists evs, trace (world s) = trace (world s0) ++ evs
               /\ checked_paths evs ≡ₚ map scan_filename (teams_where past_check (tasks s)))
  /\ teamsFound s ++ appending (tasks s) ⊆+ teams_where past_delete (tasks s).
Proof.
  intros Hno Hnone. revert s. apply scan_invariant.
  { rewrite Hno, Hnone. split; [|done]. exists []. by rewrite app_nil_r. }
  intros s s' _ [(evs & Htr & Hchecked) Hfound] Hstep.
  step_cases Hstep; simpl;
    try rewrite Htasks in Hfound, Hchecked;
    rewrite ?appending_middle in Hfound;
    rewrite ?teams_where_middle in Hfound; rewrite ?teams_where_middle in Hchecked;
    simpl in Hfound, Hchecked;
    rewrite ?appending_middle, ?teams_where_middle, ?teams_where_app; simpl.
  - (* launch *)
    change (appending []) with (@nil string).
    change (teams_where past_check []) with (@nil string).
    change (teams_where past_delete []) with (@nil string).
    rewrite !app_nil_r. split; [by exists evs|done].
  - (* report *) split; [by exists evs|done].
  - (* send *) split; [by exists evs|done].
  - (* existence check *)
    rewrite KBFSFileExists_eq. simpl. split.
    + eexists (evs ++ [_]). split; [by rewrite Htr, <- app_assoc|].
      rewrite checked_paths_snoc. simpl. rewrite Hchecked.
      destruct (match fault (world s) (OpKBFSFileExists (scan_filename team)) with
                | Some _ => false
                | None => bool_decide (is_Some (kbfs (world s) !! scan_filename team))
                end); simpl; rewrite !map_app; simpl; solve_Permutation.
    + destruct (match fault (world s) (OpKBFSFileExists (scan_filename team)) with
                | Some _ => false
                | None => bool_decide (is_Some (kbfs (world s) !! scan_filename team))
                end); simpl; [done|].
      etrans; [exact Hfound|]. apply submseteq_app; [done|]. by apply submseteq_cons.
  - (* deletion *)
    split.
    + eexists (evs ++ [_]). split; [by rewrite KBFSDelete_trace, Htr, <- app_assoc|].
      rewrite checked_paths_snoc. simpl. by rewrite app_nil_r.
    + rewrite (assoc_L (++) (teamsFound s)), <- !Permutation_middle.
      apply submseteq_skip. by rewrite <- (assoc_L (++)).
  - (* test of err *)
    destruct (scan_err s); simpl; (split; [by exists evs|done]).
  - (* print *) split; [by exists evs|done].
  - (* append *)
    split; [by exists evs|]. rewrite <- Hfound. apply Permutation_submseteq.
    solve_Permutation.
  - (* Done *) split; [by exists evs|done].
  - (* receive *) split; [by exists evs|done].
Qed.

(** At the report every listed team has its goroutine, in the order of
    the listing, and every goroutine is past [semaphore.Done()]. *)
Lemma report_state (w0 : World) (s0 s : Scan) :
  wipe_all_configs_start w0 = Ok s0 ->
  rtc step s0 s -> mainpc s = MReturned ->
  map task_team (tasks s) = kbfs_teams w0
  /\ forall t, t ∈ tasks s -> task_pc t = PRelease \/ task_pc t = PFinished.
Proof.
  intros Hstart Hreach Hret. apply start_state in Hstart.
  assert (Hw0 : semaphore s0 = length (to_launch s0) + count not_done (tasks s0)).
  { subst s0. unfold to_launch. simpl. rewrite count_nil. lia. }
  assert (Hm0 : mainpc s0 <> MReturned) by (by subst s0).
  destruct (returned_invariant _ _ Hw0 Hm0 Hreach Hret) as [Hsem _].
  pose proof (wait_invariant _ _ Hw0 Hreach) as Hwait.
  pose proof (teams_invariant _ _ Hreach) as Hteams.
  unfold to_launch in Hwait, Hteams at 1. rewrite Hret in Hwait, Hteams.
  rewrite Hsem in Hwait. simpl in Hwait. rewrite app_nil_r in Hteams.
  subst s0. simpl in Hteams. split; [done|].
  intros t Hin. assert (Hnd : not_done t = false) by (by eapply count_all_false).
  destruct t as [team pc]. destruct pc; simpl in *; auto; done.
Qed.

(** X14.  At the report, whatever the interleaving, the existence
    checks made are exactly one per listed team (none skipped, none
    repeated); the deletions made are among the checked paths, at most
    one per check; and no team is recorded more often than it is
    listed. *)
Theorem scan_checks_each_team_once (w0 : World) (s0 s : Scan) :
  wipe_all_configs_start w0 = Ok s0 ->
  rtc step s0 s -> mainpc s = MReturned ->
  let evs := events_since (world s0) (world s) in
  checked_paths evs ≡ₚ map scan_filename (kbfs_teams w0)
  /\ deleted_paths evs ⊆+ checked_paths evs
  /\ teamsFound s ⊆+ kbfs_teams w0.
Proof.
  intros Hstart Hreach Hret. cbv zeta.
  destruct (report_state _ _ _ Hstart Hreach Hret) as [Hteams Hdone].
  apply start_state in Hstart.
  assert (Ht0 : tasks s0 = []) by (by subst s0).
  assert (Hf0 : teamsFound s0 = []) by (by subst s0).
  assert (He0 : scan_err s0 = None) by (by subst s0).
  destruct (checks_invariant _ _ Ht0 Hf0 Hreach) as [(evs & Htr & Hchecked) Hfound].
  destruct (events_invariant _ _ Hf0 Ht0 He0 Hreach) as (evs' & Htr' & Hperm & _).
  assert (evs' = evs) as ->.
  { rewrite Htr in Htr'. by apply app_inv_head in Htr'. }
  rewrite (events_since_app _ _ _ Htr).
  assert (Happ : appending (tasks s) = []).
  { apply appending_none. intros t Hin. unfold awaits_append.
    by destruct (Hdone t Hin) as [-> | ->]. }
  rewrite Happ, app_nil_r in Hperm, Hfound.
  rewrite teams_where_all, Hteams in Hchecked, Hfound.
  2,3: intros t Hin; unfold past_delete, past_check;
       by destruct (Hdone t Hin) as [-> | ->].
  split; [done|]. split; [|done].
  rewrite Hperm, Hchecked. by apply fmap_submseteq.
Qed.

(** X15.  The report is final: once the main routine is past
    [semaphore.Wait()], the goroutines still running only give back
    their slot of [boundChan]; no step changes the store, the output or
    the list of recorded teams any more. *)
Theorem report_is_final (w0 : World) (s0 s s' : Scan) :
  wipe_all_configs_start w0 = Ok s0 ->
  rtc step s0 s -> mainpc s = MReturned ->
  rtc step s s' ->
  mainpc s' = MReturned /\ world s' = world s /\ teamsFound s' = teamsFound s
  /\ map task_team (tasks s') = map task_team (tasks s).
Proof.
  intros Hstart Hreach Hret.
  destruct (report_state _ _ _ Hstart Hreach Hret) as [_ Hdone].
  assert (Hcount : count not_done (tasks s) = 0).
  { unfold count. apply length_zero_iff_nil.
    destruct (filter (fun t => not_done t = true) (tasks s)) as [|t l] eqn:Hf; [done|].
    assert (Hin : t ∈ filter (fun t => not_done t = true) (tasks s)) by (rewrite Hf; by left).
    apply list_elem_of_filter in Hin as [Hpc Hin]. unfold not_done in Hpc.
    by destruct (Hdone t Hin) as [Heq|Heq]; rewrite Heq in Hpc. }
  intros Hmore.
  cut (count not_done (tasks s') = 0
       /\ mainpc s' = MReturned /\ world s' = world s
       /\ teamsFound s' = teamsFound s
       /\ map task_team (tasks s') = map task_team (tasks s)).
  { by intros (_ & ? & ? & ? & ?). }
  revert s' Hmore. apply scan_invariant; [done|].
  intros x x' _ (Hc & Hm & Hw & Hf & Ht) Hstep.
  step_cases Hstep; simpl; try congruence;
    rewrite Htasks in Hc, Ht; rewrite count_middle in Hc; simpl in Hc; try lia.
  rewrite count_middle. simpl. rewrite <- Ht, !map_app. simpl.
  repeat split; try done; lia.
Qed.

(** What is known of every goroutine is known of the one that moves. *)
Ltac this_task Hall :=
  try match goal with
      | Ht : tasks ?s = ?l1 ++ ?t :: ?l2 |- _ =>
          let Hthis := fresh "Hthis" in
          assert (Hthis := Hall t); rewrite Ht in Hthis;
          specialize (Hthis ltac:(apply elem_of_app; right; by left));
          simpl in Hthis
      end.

(** X16.  With a limit of zero and at least one listed team the scan
    never reports: [boundChan] has no room, so every goroutine stays at
    its send, no call to the store is made, and once all goroutines are
    launched no step is possible at all. *)
Theorem scan_blocks_without_slots (w0 : World) (s0 s : Scan) :
  BoundedParallelismLimit = 0 -> kbfs_teams w0 <> [] ->
  wipe_all_configs_start w0 = Ok s0 ->
  rtc step s0 s ->
  mainpc s <> MReturned /\ world s = world s0
  /\ (forall t, t ∈ tasks s -> task_pc t = PAcquire)
  /\ (to_launch s = [] -> forall s', ~ step s s').
Proof.
  intros Hzero Hteams Hstart Hreach. apply start_state in Hstart.
  assert (Hinv : mainpc s <> MReturned /\ world s = world s0
                 /\ (forall t, t ∈ tasks s -> task_pc t = PAcquire)
                 /\ semaphore s = length (kbfs_teams w0)).
  { revert s Hreach. apply scan_invariant.
    { subst s0. simpl. repeat split; try done. by intros t ?%elem_of_nil. }
    intros s s' _ (Hm & Hw & Hpc & Hsem) Hstep.
    step_cases Hstep; simpl; this_task Hpc; try done; try lia.
    - repeat split; try done.
      intros t [Hin| ->%list_elem_of_singleton]%elem_of_app; [by apply Hpc|done].
    - destruct (kbfs_teams w0); [done|]. simpl in Hsem. lia. }
  destruct Hinv as (Hm & Hw & Hpc & Hsem).
  split; [done|]. split; [done|]. split; [done|].
  intros Hlaunch s' Hstep. unfold to_launch in Hlaunch.
  step_cases Hstep; this_task Hpc; try done; try lia.
  - rewrite Hmain in Hlaunch. done.
  - destruct (kbfs_teams w0); [done|]. simpl in Hsem. lia.
Qed.

Lemma writeClientConfig_loop_listing (conf : Config) (username : string)
    (teams : list string) (w w' : World) (err : option error) :
  writeClientConfig_loop conf username teams w = (err, w') ->
  kbfs_teams w' = kbfs_teams w.
Proof.
  revert w. induction teams as [|team rest IH]; intros w Hrun; simpl in Hrun.
  - by injection Hrun as <- <-.
  - destruct (json_Marshal (writeClientConfig_entry conf username team)) as [content|e].
    2:{ by injection Hrun as <- <-. }
    destruct (KBFSWrite (team_config_filename team) content false w)
      as [[e|] w1] eqn:Hwr.
    + injection Hrun as <- <-. by apply KBFSWrite_err in Hwr as [_ ->].
    + apply KBFSWrite_ok in Hwr as [_ ->]. by rewrite (IH _ Hrun).
Qed.

Lemma writeClientConfig_teams_listed (conf : Config) (w : World) :
  kbfs_teams (snd (writeClientConfig conf w)) = kbfs_teams w.
Proof.
  unfold writeClientConfig, bot_GetUsername, logrus_Debugf.
  destruct (fault w (OpGetUsername conf)) as [e|]; [done|].
  destruct (writeClientConfig_loop conf (bot_username w) (writeClientConfig_teams conf)
              (record (OpGetUsername conf) None w)) as [err w1] eqn:Hloop.
  apply writeClientConfig_loop_listing in Hloop. by destruct err.
Qed.

(** X17.  The maintenance scan finds what Publish wrote.  After a
    Publish that reported no error, for a team of its list whose name is
    a plain path element and whose folder is listed, a scan whose
    existence checks do not fail and whose listing has no repetition
    records the team at its report, and it called [KBFSDelete] on the
    very path Publish wrote the team's entry to; if that deletion
    succeeded the entry is gone. *)
Theorem scan_finds_published_entry (conf : Config) (w : World) (s0 s : Scan)
    (team : string) :
  let published := snd (writeClientConfig conf w) in
  fst (writeClientConfig conf w) = None ->
  team ∈ writeClientConfig_teams conf ->
  filepath.plain_element team = true ->
  filepath.plain_element ConfigFilename = true ->
  team ∈ kbfs_teams w -> NoDup (kbfs_teams w) ->
  (forall w' p, fault w' (OpKBFSFileExists p) = None) ->
  wipe_all_configs_start published = Ok s0 ->
  rtc step s0 s -> mainpc s = MReturned ->
  team ∈ teamsFound s
  /\ exists r,
       (OpKBFSDelete (team_config_filename team), r) ∈ events_since (world s0) (world s)
       /\ (r = None -> kbfs (world s) !! team_config_filename team = None).
Proof.
  cbv zeta. intros Hpub Hteam Hplain Hfile Hlisted Hnodup Hexists Hstart Hreach Hret.
  rewrite (Join_team_file team ConfigFilename Hplain Hfile
           : team_config_filename team = scan_filename team).
  assert (Hthere : is_Some (kbfs (snd (writeClientConfig conf w)) !! scan_filename team)).
  { rewrite <- (Join_team_file team ConfigFilename Hplain Hfile
                : team_config_filename team = scan_filename team).
    destruct (writeClientConfig_spec conf w)
      as [(e & _ & Hres) | [_ [(evs & _ & _ & _ & Hin)
                             | (? & ? & ? & ? & e & _ & Hres & _)]]].
    - rewrite Hres in Hpub. done.
    - by apply Hin.
    - rewrite Hres in Hpub. done. }
  destruct (report_state _ _ _ Hstart Hreach Hret) as [Hteams Hdone].
  rewrite writeClientConfig_teams_listed in Hteams.
  apply start_state in Hstart.
  assert (Ht0 : tasks s0 = []) by (by subst s0).
  assert (Hf0 : teamsFound s0 = []) by (by subst s0).
  assert (He0 : scan_err s0 = None) by (by subst s0).
  assert (Hk0 : kbfs (world s0) = kbfs (snd (writeClientConfig conf w))) by (by subst s0).
  destruct (store_invariant s0 s) as (_ & _ & Htask & _); try done.
  { rewrite Ht0. subst s0. simpl. by rewrite writeClientConfig_teams_listed. }
  destruct (events_invariant _ _ Hf0 Ht0 He0 Hreach)
    as (evs & Htr & Hperm & _ & Habs & _).
  rewrite (events_since_app _ _ _ Htr).
  assert (Happ : appending (tasks s) = []).
  { apply appending_none. intros t Hin. unfold awaits_append.
    by destruct (Hdone t Hin) as [-> | ->]. }
  rewrite Happ, app_nil_r in Hperm.
  assert (Hfound : team ∈ teamsFound s).
  { rewrite <- Hteams in Hlisted.
    apply list_elem_of_fmap in Hlisted as (t & -> & Ht).
    specialize (Htask t Ht). unfold task_ok in Htask. rewrite Hk0 in Htask.
    destruct (Hdone t Ht) as [Hpc|Hpc]; rewrite Hpc in Htask; by apply Htask. }
  split; [done|].
  assert (Hin : scan_filename team ∈ deleted_paths evs).
  { rewrite Hperm. by apply list_elem_of_fmap_2. }
  apply list_elem_of_omap in Hin as ([op r] & Hin & Hop).
  destruct op; simpl in Hop; try done. injection Hop as ->.
  exists r. split; [done|]. intros ->. by apply Habs.
Qed.

End ScannerFacts.

(** *** The scanner on explicit inputs *)

(** Five teams and a limit of two: after every goroutine has had one
    turn, two hold a slot and three wait at the send. *)
Lemma scanner_never_exceeds_limit_witness :
  let E := sample_externals [] "yes" 2 in
  let teams := ["alpha"; "beta"; "gamma"; "delta"; "epsilon"] in
  let w0 := sample_world (sample_config [] "chat" EmptyString) ∅ teams in
  let s := run (round_robin 5 1) (start_of w0) in
  map task_pc (tasks s) = [PExists; PExists; PAcquire; PAcquire; PAcquire]
  /\ (count in_flight (tasks s) <= 2
      /\ count in_flight (tasks s) <= count holds_slot (tasks s)
      /\ count holds_slot (tasks s) = boundChan s
      /\ boundChan s <= 2
      /\ (teams = [] ->
          main_step (start_of w0)
          = Some (mkScan (print (scan_report []) (world (start_of w0))) []
                         MReturned 0 0 [] None)
          /\ forall i, goroutine_step i (start_of w0) = None)).
Proof.
  cbv zeta. split; [compute_done|].
  apply (@scanner_never_exceeds_limit (sample_externals [] "yes" 2)
           (sample_world (sample_config [] "chat" EmptyString) ∅
              ["alpha"; "beta"; "gamma"; "delta"; "epsilon"])).
  - reflexivity.
  - apply run_reachable.
Defined.

Example scan_of_no_team :
  let E := sample_externals [] "yes" 2 in
  let w0 := sample_world (sample_config [] "chat" EmptyString) ∅ [] in
  let s := run [RunMain] (start_of w0) in
  mainpc s = MReturned /\ teamsFound s = []
  /\ stdout (world s) = ["Deleted configs found in these teams: []" +:+ nl].
Proof. cbv zeta. repeat split; compute_done. Qed.


(** One interleaving of that scenario, step by step. *)
Example scan_scenario_round_robin :
  let E := sample_externals [] "yes" 2 in
  let beta := "/keybase/team/beta/kssh-client.config" in
  let w0 := sample_world (sample_config [] "chat" EmptyString)
              {[ beta := "stray" ]} ["alpha"; "beta"; "gamma"] in
  let s := run (round_robin 3 16 ++ [RunMain]) (start_of w0) in
  mainpc s = MReturned
  /\ teamsFound s = ["beta"]
  /\ kbfs (world s) = ∅
  /\ deleted_paths (trace (world s)) = [beta]
  /\ map task_pc (tasks s) = [PFinished; PFinished; PFinished].
Proof. cbv zeta. repeat split; compute_done. Qed.


(** The variable [err] is shared: when [gamma]'s deletion succeeds
    between the test and the print of [beta]'s goroutine, what is printed
    for [beta]'s failed deletion is [<nil>]. *)
Example scan_error_overwritten :
  let beta := "/keybase/team/beta/kssh-client.config" in
  let gamma := "/keybase/team/gamma/kssh-client.config" in
  let E := sample_externals [OpKBFSDelete beta] "yes" 2 in
  let w0 := sample_world (sample_config [] "chat" EmptyString)
              {[ beta := "stray"; gamma := "stray" ]} ["alpha"; "beta"; "gamma"] in
  let sched := [RunMain; RunMain; RunMain;
                RunGo 1; RunGo 2; RunGo 1; RunGo 2;
                RunGo 1; RunGo 1; RunGo 2; RunGo 1]
               ++ concat (repeat (map RunGo (seq 0 3)) 16)
               ++ [RunMain] in
  let s := run sched (start_of w0) in
  mainpc s = MReturned
  /\ teamsFound s = ["beta"; "gamma"]
  /\ stdout (world s)
     = ["<nil>" +:+ nl;
        "Deleted configs found in these teams: [beta gamma]" +:+ nl].
Proof. cbv zeta. repeat split; compute_done. Qed.

(** *** More runs of the scanner *)

Lemma scan_touches_only_listed_config_files_witness :
  let E := sample_externals [] "yes" 2 in
  let beta := "/keybase/team/beta/kssh-client.config" in
  let notes := "/keybase/team/beta/notes" in
  let w0 := sample_world (sample_config [] "chat" EmptyString)
              {[ beta := "stray"; notes := "keep" ]} ["alpha"; "beta"; "gamma"] in
  let s := run (round_robin 3 16 ++ [RunMain]) (start_of w0) in
  kbfs (world s) = {[ notes := "keep" ]}
  /\ (disk (world s) = disk w0
      /\ kbfs (world s) ⊆ kbfs w0
      /\ (forall p, p ∉ map scan_filename (kbfs_teams w0) ->
            kbfs (world s) !! p = kbfs w0 !! p)
      /\ Forall (scan_call (kbfs_teams w0)) (events_since (world (start_of w0)) (world s))).
Proof.
  cbv zeta. split; [compute_done|].
  apply (@scan_touches_only_listed_config_files (sample_externals [] "yes" 2)
           (sample_world (sample_config [] "chat" EmptyString)
              {[ "/keybase/team/beta/kssh-client.config" := "stray";
                 "/keybase/team/beta/notes" := "keep" ]} ["alpha"; "beta"; "gamma"])).
  - reflexivity.
  - apply run_reachable.
Defined.

(** A listing that names [beta] twice: two checks of its path, one
    deletion, and [beta] is recorded once. *)
Lemma scan_checks_each_team_once_witness :
  let E := sample_externals [] "yes" 2 in
  let beta := "/keybase/team/beta/kssh-client.config" in
  let w0 := sample_world (sample_config [] "chat" EmptyString)
              {[ beta := "stray" ]} ["beta"; "alpha"; "beta"] in
  let s := run (round_robin 3 16 ++ [RunMain]) (start_of w0) in
  let evs := events_since (world (start_of w0)) (world s) in
  (deleted_paths evs = [beta] /\ teamsFound s = ["beta"])
  /\ (checked_paths evs ≡ₚ map scan_filename ["beta"; "alpha"; "beta"]
      /\ deleted_paths evs ⊆+ checked_paths evs
      /\ teamsFound s ⊆+ ["beta"; "alpha"; "beta"]).
Proof.
  cbv zeta. split; [split; compute_done|].
  apply (@scan_checks_each_team_once (sample_externals [] "yes" 2)
           (sample_world (sample_config [] "chat" EmptyString)
              {[ "/keybase/team/beta/kssh-client.config" := "stray" ]}
              ["beta"; "alpha"; "beta"])).
  - reflexivity.
  - apply run_reachable.
  - compute_done.
Defined.

(** The main routine reports while the only goroutine still has to give
    back its slot; the goroutine's last step changes nothing reported. *)
Lemma report_is_final_witness :
  let E := sample_externals [] "yes" 2 in
  let w0 := sample_world (sample_config [] "chat" EmptyString) ∅ ["alpha"] in
  let s := run [RunMain; RunGo 0; RunGo 0; RunGo 0; RunMain] (start_of w0) in
  let s' := run [RunGo 0] s in
  (map task_pc (tasks s) = [PRelease] /\ map task_pc (tasks s') = [PFinished])
  /\ (mainpc s' = MReturned /\ world s' = world s /\ teamsFound s' = teamsFound s
      /\ map task_team (tasks s') = map task_team (tasks s)).
Proof.
  cbv zeta. split; [split; compute_done|].
  apply (@report_is_final (sample_externals [] "yes" 2)
           (sample_world (sample_config [] "chat" EmptyString) ∅ ["alpha"])
           (@start_of (sample_externals [] "yes" 2)
              (sample_world (sample_config [] "chat" EmptyString) ∅ ["alpha"]))).
  - reflexivity.
  - apply run_reachable.
  - compute_done.
  - apply run_reachable.
Defined.

Lemma scan_blocks_without_slots_witness :
  let E := sample_externals [] "yes" 0 in
  let w0 := sample_world (sample_config [] "chat" EmptyString) ∅ ["alpha"; "beta"] in
  let s := run (round_robin 2 4 ++ [RunMain]) (start_of w0) in
  map task_pc (tasks s) = [PAcquire; PAcquire]
  /\ (mainpc s <> MReturned /\ world s = world (start_of w0)
      /\ (forall t, t ∈ tasks s -> task_pc t = PAcquire)
      /\ (to_launch s = [] -> forall s', ~ step s s')).
Proof.
  cbv zeta. split; [compute_done|].
  apply (@scan_blocks_without_slots (sample_externals [] "yes" 0)
           (sample_world (sample_config [] "chat" EmptyString) ∅ ["alpha"; "beta"])).
  - reflexivity.
  - discriminate.
  - reflexivity.
  - apply run_reachable.
Defined.

(** Publish for [alpha] and [beta], then the scan over the folders
    [alpha], [beta] and [gamma]. *)
Lemma scan_finds_published_entry_witness :
  let E := sample_externals [] "yes" 2 in
  let conf := sample_config ["alpha"; "beta"] EmptyString EmptyString in
  let w := sample_world conf ∅ ["alpha"; "beta"; "gamma"] in
  let published := snd (writeClientConfig conf w) in
  let s := run (round_robin 3 16 ++ [RunMain]) (start_of published) in
  (size (kbfs published) = 2 /\ kbfs (world s) = ∅)
  /\ ("beta" ∈ teamsFound s
      /\ exists r,
           (OpKBFSDelete (team_config_filename "beta"), r)
             ∈ events_since (world (start_of published)) (world s)
           /\ (r = None -> kbfs (world s) !! team_config_filename "beta" = None)).
Proof.
  cbv zeta. split; [split; compute_done|].
  apply (@scan_finds_published_entry (sample_externals [] "yes" 2)
           (sample_config ["alpha"; "beta"] EmptyString EmptyString)
           (sample_world (sample_config ["alpha"; "beta"] EmptyString EmptyString) ∅
              ["alpha"; "beta"; "gamma"])).
  - reflexivity.
  - compute_done.
  - reflexivity.
  - reflexivity.
  - compute_done.
  - compute_done.
  - done.
  - reflexivity.
  - apply run_reachable.
  - compute_done.
Defined.
